(** * CLIPSeg nodes: a shallow embedding of [clipseg.py]

    The module defines two host nodes, [CLIPSeg] (text-prompted segmentation)
    and [CombineMasks], together with a handful of array helpers.  Python
    functions become Rocq functions in an error monad; the two node methods
    additionally thread the node object and a log of the model-loading calls.

    Conventions.
    - Tensor and float-array elements are exact rationals extended with the
      IEEE specials ([fval]), and the dtype is carried as a tag.  Rounding to
      float16/float32 is computed where a result of the module depends on
      it, in the comparison with the threshold ([round_to], [tensor_gt]);
      arithmetic is exact, and a conversion between dtypes ([type_as]) keeps
      the values it is given, so what is stated of a converted tensor is
      stated up to that conversion.
    - [uint8] arrays hold [Byte.byte].
    - Calls into torch, numpy, cv2, scipy, matplotlib, PIL and transformers
      either have a small executable model written from the library's
      documented behaviour (named after the call), or are fields of the
      record [Library]. *)

From Stdlib Require Import ZArith QArith Qround Qabs Qpower List String Bool Lia Lqa.
From Stdlib Require Import Strings.Byte.
Import ListNotations.
Local Open Scope string_scope.
Local Open Scope Z_scope.

(* ------------------------------------------------------------------ *)
(** ** Exceptions and the error monad                                  *)
(* ------------------------------------------------------------------ *)

(** An exception raised inside a library call. *)
Inductive lib_exn := LibExn (library : string) (msg : string).

(** [TypeError], [AttributeError] and [IndexError] are the exceptions the
    interpreter raises while running the module's own statements (a call
    with a missing argument, an attribute that does not exist, a tuple index
    out of range); [LibraryError] wraps whatever a library call raised. *)
Inductive exn :=
| TypeError (msg : string)
| AttributeError (msg : string)
| IndexError (msg : string)
| LibraryError (e : lib_exn).

Inductive result (A : Type) :=
| Ok (a : A)
| Err (e : exn).
Arguments Ok {A} a.
Arguments Err {A} e.

Definition lib_result (A : Type) : Type := (lib_exn + A)%type.

Class Monad (m : Type -> Type) := {
  ret : forall {A}, A -> m A;
  bind : forall {A B}, m A -> (A -> m B) -> m B
}.

Notation "x <- c1 ;; c2" := (bind c1 (fun x => c2))
  (at level 61, c1 at next level, right associativity).
Notation "' pat <- c1 ;; c2" := (bind c1 (fun x => match x with pat => c2 end))
  (at level 61, pat pattern, c1 at next level, right associativity).

Definition result_bind {A B} (c : result A) (k : A -> result B) : result B :=
  match c with
  | Ok a => k a
  | Err e => Err e
  end.

#[export] Instance Monad_result : Monad result :=
  {| ret := @Ok; bind := @result_bind |}.

(** A library call seen from the module: its exception, if any, is the
    exception of the statement that made the call. *)
Definition lib {A} (r : lib_result A) : result A :=
  match r with
  | inr a => Ok a
  | inl e => Err (LibraryError e)
  end.

Definition raise_lib {A} (library msg : string) : result A :=
  Err (LibraryError (LibExn library msg)).

(** *** Calls with a missing trailing argument

    A [def] with a required last parameter [pname], called positionally with
    that argument present ([Some]) or absent ([None]).  The interpreter
    checks the arity before the body runs. *)
Definition missing (fname pname : string) : exn :=
  TypeError (fname ++ "() missing 1 required positional argument: '" ++ pname ++ "'")%string.

(** The exception of [t[:, :, :3]] on a tuple [t]. *)
Definition tuple_subscript : exn :=
  TypeError "tuple indices must be integers or slices, not tuple".

Definition apply_last {A R} (fname pname : string) (f : A -> result R)
    (a : option A) : result R :=
  match a with
  | Some x => f x
  | None => Err (missing fname pname)
  end.

(* ------------------------------------------------------------------ *)
(** ** Scalars                                                         *)
(* ------------------------------------------------------------------ *)

(** A floating-point value without its rounding: a rational, an infinity or
    NaN. *)
Inductive fval :=
| Fin (q : Q)
| PInf
| NInf
| NaN.

Definition Qltb (a b : Q) : bool := negb (Qle_bool b a).

(** [a < b]; every comparison with NaN is false. *)
Definition fltb (a b : fval) : bool :=
  match a, b with
  | NaN, _ | _, NaN => false
  | Fin x, Fin y => Qltb x y
  | NInf, NInf => false
  | NInf, _ => true
  | _, PInf => match a with PInf => false | _ => true end
  | _, _ => false
  end.

Definition fgtb (a b : fval) : bool := fltb b a.

Definition fadd (a b : fval) : fval :=
  match a, b with
  | NaN, _ | _, NaN => NaN
  | Fin x, Fin y => Fin (x + y)
  | PInf, NInf | NInf, PInf => NaN
  | PInf, _ | _, PInf => PInf
  | NInf, _ | _, NInf => NInf
  end.

Definition fneg (a : fval) : fval :=
  match a with
  | Fin x => Fin (- x)
  | PInf => NInf
  | NInf => PInf
  | NaN => NaN
  end.

Definition fsub (a b : fval) : fval := fadd a (fneg b).

(** Division; a zero divisor is taken as [+0]. *)
Definition fdiv (a b : fval) : fval :=
  match a, b with
  | NaN, _ | _, NaN => NaN
  | Fin x, Fin y =>
      if Qeq_bool y 0 then
        if Qeq_bool x 0 then NaN else if Qltb 0 x then PInf else NInf
      else Fin (x / y)
  | Fin _, _ => Fin 0
  | _, Fin y => if Qltb y 0 then fneg a else a
  | _, _ => NaN
  end.

(** [torch.min] / [torch.max] of two values: NaN wins. *)
Definition fmin (a b : fval) : fval :=
  match a, b with
  | NaN, _ | _, NaN => NaN
  | _, _ => if fltb b a then b else a
  end.

Definition fmax (a b : fval) : fval :=
  match a, b with
  | NaN, _ | _, NaN => NaN
  | _, _ => if fltb a b then b else a
  end.

(* ------------------------------------------------------------------ *)
(** ** Arrays                                                          *)
(* ------------------------------------------------------------------ *)

Inductive torch_dtype := float16 | float32.

(** A float tensor / float ndarray: row-major data with its shape.
    [tensor.numpy()] and [torch.from_numpy] share the storage, so both are
    the identity here. *)
Record farray := { f_dtype : torch_dtype; f_shape : list nat; f_data : list fval }.

(** A [uint8] ndarray. *)
Record u8array := { u_shape : list nat; u_data : list byte }.

Definition numel (shape : list nat) : nat := fold_right Nat.mul 1%nat shape.

Definition numpy (t : farray) : farray := t.
Definition from_numpy (a : farray) : farray := a.

(** [tensor.type(dtype)]: the tensor converted to [dtype].  The conversion
    rounds each value to the new format; that rounding is not computed, the
    converted tensor carries the values of [t] under the new tag.  A
    statement about [type_as t dtype] is a statement up to the conversion. *)
Definition type_as (t : farray) (dtype : torch_dtype) : farray :=
  {| f_dtype := dtype; f_shape := f_shape t; f_data := f_data t |}.

(** *** Rounding to a float format

    [cvRound], to the nearest integer with ties to even, is also the
    rounding of a significand. *)
Definition cvRound (q : Q) : Z :=
  let f := Qfloor q in
  let r := (q - inject_Z f)%Q in
  match (r ?= 1 # 2)%Q with
  | Lt => f
  | Gt => f + 1
  | Eq => if Z.even f then f else f + 1
  end.

(** A binary format: [prec] significand bits (the implicit one included)
    and the exponents [emin .. emax] of its normal numbers. *)
Record float_format := { prec : Z; emin : Z; emax : Z }.

(** IEEE 754 binary16 and binary32. *)
Definition format_of (dtype : torch_dtype) : float_format :=
  match dtype with
  | float16 => {| prec := 11; emin := -14; emax := 15 |}
  | float32 => {| prec := 24; emin := -126; emax := 127 |}
  end.

Definition pow2 (e : Z) : Q := (2 ^ e)%Q.

(** The multiple of [2 ^ (e - prec + 1)], the spacing of the floats with
    exponent [e], that is nearest to [q]; ties go to the even multiple. *)
Definition on_grid (prec e : Z) (q : Q) : Q :=
  let ulp := pow2 (e - prec + 1) in
  (inject_Z (cvRound (q / ulp)) * ulp)%Q.

(** Rounding of [q >= 0] with the exponents [e], [e + 1], ..., [binades] of
    them: the first exponent with [q < 2 ^ (e + 1)] gives the spacing (the
    numbers below [2 ^ e] for the first exponent are the subnormals, which
    share its spacing); beyond the last exponent the result is infinite. *)
Fixpoint round_from (prec e : Z) (binades : nat) (q : Q) : fval :=
  match binades with
  | O => PInf
  | S n =>
      if Qltb q (pow2 (e + 1)) then Fin (on_grid prec e q)
      else round_from prec (e + 1) n q
  end.

(** Round to nearest, ties to even, of [q >= 0]; a result that reaches
    [2 ^ (emax + 1)] overflows. *)
Definition round_nonneg (fmt : float_format) (q : Q) : fval :=
  match round_from (prec fmt) (emin fmt) (Z.to_nat (emax fmt - emin fmt + 1)) q with
  | Fin v => if Qltb v (pow2 (emax fmt + 1)) then Fin v else PInf
  | other => other
  end.

(** A Python number converted to [dtype]. *)
Definition round_to (dtype : torch_dtype) (q : Q) : fval :=
  if Qltb q 0 then fneg (round_nonneg (format_of dtype) (- q))
  else round_nonneg (format_of dtype) q.

(** A value converted to [dtype]. *)
Definition cast (dtype : torch_dtype) (v : fval) : fval :=
  match v with
  | Fin q => round_to dtype q
  | _ => v
  end.

(** A boolean tensor, the result of an elementwise comparison. *)
Record barray := { b_shape : list nat; b_data : list bool }.

(** [tensor > threshold] with a Python number on the right.  The number
    does not change the dtype of the comparison: torch converts both sides
    to the dtype of the tensor and compares there, so the threshold is
    rounded to that dtype first. *)
Definition tensor_gt (t : farray) (threshold : Q) : barray :=
  {| b_shape := f_shape t;
     b_data := map (fun v => fgtb (cast (f_dtype t) v) (round_to (f_dtype t) threshold))
                   (f_data t) |}.

(** [torch.tensor(x, dtype=dtype)]: a 0-dimensional tensor. *)
Definition torch_tensor (x : Q) (dtype : torch_dtype) : farray :=
  {| f_dtype := dtype; f_shape := []; f_data := [Fin x] |}.

Fixpoint where_data (cond : list bool) (xs : list fval) (other : fval) : list fval :=
  match cond, xs with
  | c :: cond', x :: xs' => (if c then x else other) :: where_data cond' xs' other
  | _, _ => []
  end.

(** [torch.where(cond, input, other)] for [cond] of the shape of [input] and
    a 0-dimensional [other], which is broadcast; the result has the dtype of
    [input]. *)
Definition torch_where (cond : barray) (input other : farray) : farray :=
  {| f_dtype := f_dtype input;
     f_shape := f_shape input;
     f_data := where_data (b_data cond) (f_data input) (hd NaN (f_data other)) |}.

(** The threshold statement of [get_mask_dilated] (line 174). *)
Definition threshold_step (tensor : farray) (threshold : Q) (dtype : torch_dtype) : farray :=
  torch_where (tensor_gt tensor threshold) tensor (torch_tensor 0 dtype).

(** *** Reductions and the normalisation statement *)

(** [tensor.min()] and [tensor.max()] over all elements; torch refuses an
    empty tensor. *)
Definition tensor_min (t : farray) : result fval :=
  match f_data t with
  | [] => raise_lib "torch" "min(): cannot reduce an empty tensor"
  | x :: xs => Ok (fold_left fmin xs x)
  end.

Definition tensor_max (t : farray) : result fval :=
  match f_data t with
  | [] => raise_lib "torch" "max(): cannot reduce an empty tensor"
  | x :: xs => Ok (fold_left fmax xs x)
  end.

(** [tensor - s] and [tensor / s] for a 0-dimensional [s]. *)
Definition tensor_sub_scalar (t : farray) (s : fval) : farray :=
  {| f_dtype := f_dtype t; f_shape := f_shape t;
     f_data := map (fun v => fsub v s) (f_data t) |}.

Definition tensor_div_scalar (t : farray) (s : fval) : farray :=
  {| f_dtype := f_dtype t; f_shape := f_shape t;
     f_data := map (fun v => fdiv v s) (f_data t) |}.

(** The divisor of line 182: [tensor_smoothed.max() - tensor_smoothed.min()]. *)
Definition normalize_divisor (tensor_smoothed : farray) : result fval :=
  mx <- tensor_max tensor_smoothed ;;
  mn <- tensor_min tensor_smoothed ;;
  ret (fsub mx mn).

(** Line 182:
    [(tensor_smoothed - tensor_smoothed.min()) / (tensor_smoothed.max() - tensor_smoothed.min())]. *)
Definition normalize (tensor_smoothed : farray) : result farray :=
  mn <- tensor_min tensor_smoothed ;;
  let numerator := tensor_sub_scalar tensor_smoothed mn in
  divisor <- normalize_divisor tensor_smoothed ;;
  ret (tensor_div_scalar numerator divisor).

(** *** Shapes and indexing *)

Definition shape_eqb (s1 s2 : list nat) : bool :=
  if list_eq_dec Nat.eq_dec s1 s2 then true else false.

(** [array.squeeze()]: the axes of length one are dropped. *)
Definition squeeze_shape (shape : list nat) : list nat :=
  filter (fun n => negb (Nat.eqb n 1)) shape.

(** [tensor.squeeze(0)]. *)
Definition squeeze0_shape (shape : list nat) : list nat :=
  match shape with
  | 1%nat :: rest => rest
  | _ => shape
  end.

(** The elements of [data] whose position [p] satisfies [keep p]. *)
Definition select {A} (keep : nat -> bool) (data : list A) : list A :=
  map snd (filter (fun ix => keep (fst ix)) (combine (seq 0 (List.length data)) data)).

(** [a[:, :, :3]]: numpy needs at least three axes. *)
Definition getitem_rgb (a : farray) : result farray :=
  match f_shape a with
  | h :: w :: c :: rest =>
      let inner := numel rest in
      Ok {| f_dtype := f_dtype a;
            f_shape := h :: w :: Nat.min c 3 :: rest;
            f_data := select (fun p => Nat.ltb (Nat.modulo (Nat.div p inner) c) 3) (f_data a) |}
  | _ => raise_lib "numpy" "IndexError: too many indices for array"
  end.

(** [a[..., 0]] on a shape and its data: the last axis is indexed at 0. *)
Definition getitem_last0 {A} (shape : list nat) (data : list A) : result (list nat * list A) :=
  match rev shape with
  | [] => raise_lib "numpy" "IndexError: too many indices for array"
  | O :: _ => raise_lib "numpy" "IndexError: index 0 is out of bounds for axis with size 0"
  | c :: front => Ok (rev front, select (fun p => Nat.eqb (Nat.modulo p c) 0) data)
  end.

(** [t[0]] on a tensor. *)
Definition getitem0 (t : farray) : result farray :=
  match f_shape t with
  | [] => raise_lib "torch" "IndexError: invalid index of a 0-dim tensor"
  | O :: _ => raise_lib "torch" "IndexError: index 0 is out of bounds for dimension 0 with size 0"
  | _ :: rest =>
      Ok {| f_dtype := f_dtype t; f_shape := rest; f_data := firstn (numel rest) (f_data t) |}
  end.

(** [t[None,]]: a new leading axis of length one. *)
Definition unsqueeze0 (t : farray) : farray :=
  {| f_dtype := f_dtype t; f_shape := 1%nat :: f_shape t; f_data := f_data t |}.

(** *** uint8 arithmetic *)

Definition byte_to_Z (b : byte) : Z := Z.of_N (Byte.to_N b).
Definition byte_to_Q (b : byte) : Q := inject_Z (byte_to_Z b).

(** [saturate_cast<uchar>]. *)
Definition saturate_u8 (z : Z) : byte :=
  if z <? 0 then x00
  else if 255 <? z then xff
  else match Byte.of_N (Z.to_N z) with
       | Some b => b
       | None => xff
       end.

(** Python's [int(x)] on a number: truncation towards zero. *)
Definition py_int (x : Q) : Z := Z.quot (Qnum x) (Zpos (Qden x)).

(** [x * k] for a float and a Python number. *)
Definition fscale (a : fval) (k : Q) : fval :=
  match a with
  | Fin x => Fin (x * k)
  | NaN => NaN
  | PInf => if Qltb 0 k then PInf else if Qltb k 0 then NInf else NaN
  | NInf => if Qltb 0 k then NInf else if Qltb k 0 then PInf else NaN
  end.

(** [array.astype(np.float32) / 255.0] on a uint8 element. *)
Definition u8_to_unit (b : byte) : fval := Fin (byte_to_Q b / 255).

(* ------------------------------------------------------------------ *)
(** ** The libraries behind the module                                 *)
(* ------------------------------------------------------------------ *)

(** The colormaps the module uses: [cm.viridis] and [cm.Greys_r]. *)
Inductive colormap := viridis | Greys_r.

(** Library calls that are not modelled further.  Every call may raise. *)
Record Library := {
  pil_image : Type;
  processor : Type;
  segmodel : Type;
  model_inputs : Type;
  torch_device : Type;
  (* comfy.model_management *)
  should_use_fp16 : lib_result bool;
  get_torch_device : lib_result torch_device;
  (* torchvision.transforms.functional *)
  to_pil_image : farray -> string -> lib_result pil_image;
  (* transformers *)
  CLIPSegProcessor_from_pretrained : string -> lib_result processor;
  CLIPSegForImageSegmentation_from_pretrained : string -> lib_result segmodel;
  model_to : segmodel -> torch_device -> lib_result segmodel;
  processor_call : processor -> string -> list pil_image -> lib_result model_inputs;
  (* the [logits] of the model's output, computed under [torch.no_grad()] *)
  model_logits : segmodel -> model_inputs -> lib_result farray;
  (* torch, scipy, matplotlib *)
  torch_sigmoid : farray -> lib_result farray;
  torch_add_broadcast : farray -> farray -> lib_result farray;
  gaussian_filter : farray -> Q -> lib_result farray;
  colormap_call : colormap -> farray -> lib_result farray;
  (* cv2 *)
  cv2_resize_linear : u8array -> nat * nat -> lib_result u8array;
  (* a cv2 function returns None in place of an empty array *)
  cv2_dilate_other : farray -> u8array -> lib_result (option farray);
  cv2_addWeighted_other : u8array -> Q -> u8array -> Q -> Q -> lib_result (option u8array);
  cv2_reject_pil : pil_image -> lib_exn;
  (* the C cast of a float outside 0..255, or not finite, to uint8 *)
  cast_out_of_range : fval -> byte;
  (* PIL *)
  Image_fromarray : u8array -> lib_result pil_image;
  Image_convert : pil_image -> string -> lib_result pil_image;
  np_array : pil_image -> lib_result u8array
}.

(** The events a node method leaves behind outside its return value. *)
Inductive event :=
| FromPretrained (class path : string)
| ToDevice.

Section Clipseg.

Context (L : Library).

(** *** cv2 *)

(** [float.astype(np.uint8)]: truncation where the value fits. *)
Definition astype_uint8 (v : fval) : byte :=
  match v with
  | Fin q =>
      let z := py_int q in
      if (0 <=? z) && (z <=? 255) then saturate_u8 z else cast_out_of_range L v
  | _ => cast_out_of_range L v
  end.

(** [np.ones((k, k), np.uint8)]. *)
Definition np_ones_square (k : Z) : result u8array :=
  if k <? 0 then raise_lib "numpy" "ValueError: negative dimensions are not allowed"
  else Ok {| u_shape := [Z.to_nat k; Z.to_nat k];
             u_data := repeat x01 (Z.to_nat k * Z.to_nat k) |}.

Definition zrange (k : nat) : list Z := map Z.of_nat (seq 0 k).

(** The source pixels under a [kh] x [kw] structuring element of ones,
    anchored at its centre and placed on pixel [(i, j)] of an [h] x [w]
    image.  Positions outside the image do not take part (the default
    border of [cv2.dilate]). *)
Definition neighbourhood (h w : nat) (data : list fval) (kh kw : nat) (i j : Z)
    : list fval :=
  flat_map (fun a =>
    flat_map (fun b =>
      let y := i + a - Z.of_nat kh / 2 in
      let x := j + b - Z.of_nat kw / 2 in
      if (0 <=? y) && (y <? Z.of_nat h) && (0 <=? x) && (x <? Z.of_nat w)
      then [nth (Z.to_nat (y * Z.of_nat w + x)) data NaN]
      else [])
    (zrange kw)) (zrange kh).

Definition cvmax (a b : fval) : fval := if fltb a b then b else a.

Definition dilate_pixel (h w : nat) (data : list fval) (kh kw : nat) (p : nat) : fval :=
  let i := Z.of_nat p / Z.of_nat w in
  let j := Z.of_nat p mod Z.of_nat w in
  match neighbourhood h w data kh kw i j with
  | [] => nth p data NaN
  | x :: xs => fold_left cvmax xs x
  end.

(** The shape in which cv2 hands back an array it received with [shape]
    and processed element by element.  The binding reads an ndarray as a
    matrix and builds the result from the matrix: an array without an axis
    is a 1 x 1 matrix, an array with one axis is a column, and a third axis
    of length one, a single channel, is not given back.  The elements keep
    their order. *)
Definition cv2_layout (shape : list nat) : list nat :=
  match shape with
  | [] => [1; 1]
  | [n] => [n; 1]
  | [h; w; 1] => [h; w]
  | _ => shape
  end%nat.

(** [cv2.dilate(src, kernel, iterations=1)].  With a kernel of a single
    element the function copies [src], whatever its dtype and shape.
    Otherwise each pixel becomes the maximum over its neighbourhood; this is
    modelled for a non-empty two-dimensional float32 [src] and a kernel
    without zero entries. *)
Definition cv2_dilate (src : farray) (kernel : u8array) : result (option farray) :=
  if shape_eqb (u_shape kernel) [1; 1]%nat then
    if Nat.eqb (numel (f_shape src)) 0 then lib (cv2_dilate_other L src kernel)
    else Ok (Some {| f_dtype := f_dtype src;
                     f_shape := cv2_layout (f_shape src);
                     f_data := f_data src |})
  else
    match f_dtype src, f_shape src, u_shape kernel with
    | float32, [S h; S w], [S kh; S kw] =>
        if forallb (fun b => negb (Byte.eqb b x00)) (u_data kernel) then
          Ok (Some {| f_dtype := float32;
                      f_shape := [S h; S w];
                      f_data := map (dilate_pixel (S h) (S w) (f_data src) (S kh) (S kw))
                                    (seq 0 (S h * S w)) |})
        else lib (cv2_dilate_other L src kernel)
    | _, _, _ => lib (cv2_dilate_other L src kernel)
    end.

Definition blend (alpha beta gamma : Q) (a b : byte) : byte :=
  saturate_u8 (cvRound (byte_to_Q a * alpha + byte_to_Q b * beta + gamma)).

(** [cv2.addWeighted(src1, alpha, src2, beta, gamma)] on uint8 arrays:
    [saturate(src1 * alpha + src2 * beta + gamma)] elementwise.  Modelled
    for arrays of one shape; for empty ones the result is empty and the
    binding returns [None]. *)
Definition cv2_addWeighted (src1 : u8array) (alpha : Q) (src2 : u8array) (beta gamma : Q)
    : result (option u8array) :=
  if shape_eqb (u_shape src1) (u_shape src2) then
    if Nat.eqb (numel (u_shape src1)) 0 then Ok None
    else
      Ok (Some {| u_shape := cv2_layout (u_shape src1);
                  u_data := map (fun ab => blend alpha beta gamma (fst ab) (snd ab))
                                (combine (u_data src1) (u_data src2)) |})
  else lib (cv2_addWeighted_other L src1 alpha src2 beta gamma).

(* ------------------------------------------------------------------ *)
(** ** Helper methods for CLIPSeg nodes (lines 27-81)                  *)
(* ------------------------------------------------------------------ *)

(** Convert a tensor to a numpy array and scale its values to 0-255. *)
Definition tensor_to_numpy (tensor : farray) : result u8array :=
  let array := numpy tensor in
  let array := {| f_dtype := f_dtype array;
                  f_shape := squeeze_shape (f_shape array);
                  f_data := f_data array |} in
  ret {| u_shape := f_shape array;
         u_data := map (fun v => astype_uint8 (fscale v 255)) (f_data array) |}.

(** Convert a numpy array to a tensor and scale its values from 0-255 to 0-1. *)
Definition numpy_to_tensor (array : u8array) (dtype : torch_dtype) : result farray :=
  let array := {| f_dtype := float32; f_shape := u_shape array;
                  f_data := map u8_to_unit (u_data array) |} in
  ret (unsqueeze0 (type_as (from_numpy array) dtype)).

(** [numpy_to_tensor(array, dtype)] on what cv2 returned, an array or
    [None]: on [None] the first statement, [array.astype(np.float32)], has
    no attribute to call. *)
Definition numpy_to_tensor_of (array : option u8array) (dtype : torch_dtype)
    : result farray :=
  match array with
  | Some a => numpy_to_tensor a dtype
  | None => Err (AttributeError "'NoneType' object has no attribute 'astype'")
  end.

(** [rgba[:, :, :3]] on what the colormap returned for [mask].  For a mask
    without an axis matplotlib returns a tuple of four floats, and a tuple
    cannot be indexed by a tuple of slices; otherwise it returns an ndarray. *)
Definition colormap_rgb (mask rgba : farray) : result farray :=
  match f_shape mask with
  | [] => Err tuple_subscript
  | _ => getitem_rgb rgba
  end.

(** Apply a colormap to a tensor and convert it to a numpy array. *)
Definition apply_colormap (mask : farray) (cmap : colormap) : result u8array :=
  rgba <- lib (colormap_call L cmap (numpy mask)) ;;
  colored_mask <- colormap_rgb mask rgba ;;
  ret {| u_shape := f_shape colored_mask;
         u_data := map (fun v => astype_uint8 (fscale v 255)) (f_data colored_mask) |}.

(** Resize an image to the given dimensions using linear interpolation. *)
Definition resize_image (image : u8array) (dimensions : nat * nat) : result u8array :=
  lib (cv2_resize_linear L image dimensions).

(** Overlay the foreground image onto the background with a given opacity. *)
Definition overlay_image (background foreground : u8array) (alpha : Q)
    : result (option u8array) :=
  cv2_addWeighted background (1 - alpha) foreground alpha 0.

(** [torch.from_numpy] on what cv2 returned. *)
Definition torch_from_numpy (a : option farray) : result farray :=
  match a with
  | Some a => Ok (from_numpy a)
  | None => raise_lib "torch" "TypeError: expected np.ndarray (got NoneType)"
  end.

Definition kernel_size (dilation_factor : Q) : Z := py_int (dilation_factor * 2) + 1.

(** Dilate a mask using a square kernel with a given dilation factor. *)
Definition dilate_mask (mask : farray) (dilation_factor : Q) (dtype : torch_dtype)
    : result farray :=
  kernel <- np_ones_square (kernel_size dilation_factor) ;;
  mask_dilated <- cv2_dilate (numpy mask) kernel ;;
  mask_dilated <- torch_from_numpy mask_dilated ;;
  ret (type_as mask_dilated dtype).

(** What [get_heatmap] and [get_binary] receive as [image]: an ndarray, or
    the PIL image [segment_image] passes. *)
Inductive image_arg :=
| ANumpy (a : u8array)
| APil (p : pil_image L).

(** [image.shape]. *)
Definition image_shape (image : image_arg) : result (list nat) :=
  match image with
  | ANumpy a => Ok (u_shape a)
  | APil _ => Err (AttributeError "'Image' object has no attribute 'shape'")
  end.

(** [shape[i]] on a tuple. *)
Definition tuple_get (shape : list nat) (i : nat) : result nat :=
  match nth_error shape i with
  | Some n => Ok n
  | None => Err (IndexError "tuple index out of range")
  end.

(** [(image.shape[1], image.shape[0])]. *)
Definition image_dimensions (image : image_arg) : result (nat * nat) :=
  s1 <- image_shape image ;;
  d1 <- tuple_get s1 1 ;;
  s0 <- image_shape image ;;
  d0 <- tuple_get s0 0 ;;
  ret (d1, d0).

(** [image] as a cv2 input array. *)
Definition as_cv2_array (image : image_arg) : result u8array :=
  match image with
  | ANumpy a => Ok a
  | APil p => Err (LibraryError (cv2_reject_pil L p))
  end.

Definition get_heatmap (mask_dilated : farray) (image : image_arg) (dtype : torch_dtype)
    : result farray :=
  heatmap <- apply_colormap mask_dilated viridis ;;
  dimensions <- image_dimensions image ;;
  heatmap_resized <- resize_image heatmap dimensions ;;
  background <- as_cv2_array image ;;
  overlay_heatmap <- overlay_image background heatmap_resized (1 # 2) ;;
  numpy_to_tensor_of overlay_heatmap dtype.

Definition get_binary (mask_dilated : farray) (image : image_arg) (dtype : torch_dtype)
    : result (farray * u8array) :=
  binary_mask <- apply_colormap mask_dilated Greys_r ;;
  dimensions <- image_dimensions image ;;
  binary_mask_resized <- resize_image binary_mask dimensions ;;
  background <- as_cv2_array image ;;
  overlay_binary <- overlay_image background binary_mask_resized 1 ;;
  t <- numpy_to_tensor_of overlay_binary dtype ;;
  ret (t, binary_mask_resized).


(* ------------------------------------------------------------------ *)
(** ** Node methods: the node object and the event log                 *)
(* ------------------------------------------------------------------ *)

(** What a method can read and change besides its arguments: the node
    object [self] and the log of events so far. *)
Record world (N : Type) := { self : N; log : list event }.
Arguments self {N} w.
Arguments log {N} w.

(** A method run on a world gives a value or an exception, and the world
    it leaves behind in either case. *)
Definition M (N A : Type) : Type := world N -> result A * world N.

Definition M_bind {N A B} (c : M N A) (k : A -> M N B) : M N B :=
  fun w =>
    match c w with
    | (Ok a, w') => k a w'
    | (Err e, w') => (Err e, w')
    end.

#[export] Instance Monad_M (N : Type) : Monad (M N) :=
  {| ret := fun A (a : A) w => (Ok a, w); bind := @M_bind N |}.

(** A helper function or a library call without outside effects. *)
Definition pure {N A} (r : result A) : M N A := fun w => (r, w).

(** [self.<attr>]. *)
Definition getattr {N A} (attr : N -> A) : M N A := fun w => (Ok (attr (self w)), w).

(** A library call with an outside effect, recorded as [ev]. *)
Definition effect {N A} (ev : event) (r : lib_result A) : M N A :=
  fun w => (lib r, {| self := self w; log := (log w ++ [ev])%list |}).

(** *** class CLIPSeg *)

Record CLIPSeg := { dtype : torch_dtype; device : torch_device L }.

(** [CLIPSeg.__init__]. *)
Definition CLIPSeg_init : result CLIPSeg :=
  fp16 <- lib (should_use_fp16 L) ;;
  d <- lib (get_torch_device L) ;;
  ret {| dtype := if (fp16 : bool) then float16 else float32; device := d |}.

Definition pretrained_path : string := "./clipseg-rd64-refined".

Definition do_clipseg (prompt : string) (images : list (pil_image L)) : M CLIPSeg farray :=
  processor <- effect (FromPretrained "CLIPSegProcessor" pretrained_path)
                 (CLIPSegProcessor_from_pretrained L pretrained_path) ;;
  loaded <- effect (FromPretrained "CLIPSegForImageSegmentation" pretrained_path)
              (CLIPSegForImageSegmentation_from_pretrained L pretrained_path) ;;
  self_device <- getattr device ;;
  model <- effect ToDevice (model_to L loaded self_device) ;;
  inputs <- pure (lib (processor_call L processor prompt images)) ;;
  preds <- pure (lib (model_logits L model inputs)) ;;
  pure (getitem0 preds).

Definition get_mask_dilated (flat : farray) (threshold blur dilation_factor : Q)
    : M CLIPSeg farray :=
  tensor <- pure (lib (torch_sigmoid L flat)) ;;
  self_dtype <- getattr dtype ;;
  let tensor_thresholded := threshold_step tensor threshold self_dtype in
  smoothed <- pure (lib (gaussian_filter L (numpy tensor_thresholded) blur)) ;;
  self_dtype <- getattr dtype ;;
  let tensor_smoothed := type_as (from_numpy smoothed) self_dtype in
  mask_normalized <- pure (normalize tensor_smoothed) ;;
  (* line 185: [dilate_mask(mask_normalized, dilation_factor)] *)
  pure (apply_last "dilate_mask" "dtype" (dilate_mask mask_normalized dilation_factor) None).

Definition segment_image (image : farray) (prompt : string)
    (blur threshold dilation_factor : Q) : M CLIPSeg (farray * farray * farray) :=
  pil <- pure (lib (to_pil_image L image "RGB")) ;;
  flat <- do_clipseg prompt [pil] ;;
  mask_dilated <- get_mask_dilated flat threshold blur dilation_factor ;;
  (* line 141: [get_heatmap(mask_dilated, pil_image)] *)
  image_out_heatmap <-
    pure (apply_last "get_heatmap" "dtype" (get_heatmap mask_dilated (APil pil)) None) ;;
  self_dtype <- getattr dtype ;;
  ' (image_out_binary, binary_mask_resized) <-
    pure (get_binary mask_dilated (APil pil) self_dtype) ;;
  ' (s, d) <- pure (getitem_last0 (u_shape binary_mask_resized) (u_data binary_mask_resized)) ;;
  binary_mask_image <- pure (lib (Image_fromarray L {| u_shape := s; u_data := d |})) ;;
  tensor_bw <- pure (lib (Image_convert L binary_mask_image "RGB")) ;;
  tensor_bw <- pure (lib (np_array L tensor_bw)) ;;
  let tensor_bw := {| f_dtype := float32; f_shape := u_shape tensor_bw;
                      f_data := map u8_to_unit (u_data tensor_bw) |} in
  self_dtype <- getattr dtype ;;
  let tensor_bw := unsqueeze0 (type_as (from_numpy tensor_bw) self_dtype) in
  ' (s, d) <- pure (getitem_last0 (squeeze0_shape (f_shape tensor_bw)) (f_data tensor_bw)) ;;
  let tensor_bw := {| f_dtype := f_dtype tensor_bw; f_shape := s; f_data := d |} in
  ret (tensor_bw, image_out_heatmap, image_out_binary).

(** *** class CombineMasks *)

(** The node object has no attribute: [__init__] is [pass]. *)
Inductive CombineMasks := CombineMasks_object.

Definition CombineMasks_init : result CombineMasks := ret CombineMasks_object.

Definition promote (d1 d2 : torch_dtype) : torch_dtype :=
  match d1, d2 with
  | float16, float16 => float16
  | _, _ => float32
  end.

(** [a + b] on tensors: elementwise for one shape, torch's broadcasting
    otherwise. *)
Definition tensor_add (a b : farray) : result farray :=
  if shape_eqb (f_shape a) (f_shape b) then
    Ok {| f_dtype := promote (f_dtype a) (f_dtype b);
          f_shape := f_shape a;
          f_data := map (fun xy => fadd (fst xy) (snd xy)) (combine (f_data a) (f_data b)) |}
  else lib (torch_add_broadcast L a b).

(** Line 215. *)
Definition combined_mask_of (mask_1 mask_2 : farray) (mask_3 : option farray)
    : result farray :=
  match mask_3 with
  | Some m3 => s <- tensor_add mask_1 mask_2 ;; tensor_add s m3
  | None => tensor_add mask_1 mask_2
  end.

(** Lines 215-231 of [combine_masks]: the combined mask and the two
    overlays, before their conversion to tensors.  An overlay is what
    [cv2.addWeighted] returned, an array or [None]. *)
Definition combine_masks_overlays (input_image mask_1 mask_2 : farray)
    (mask_3 : option farray)
    : result (farray * option u8array * option u8array) :=
  combined_mask <- combined_mask_of mask_1 mask_2 mask_3 ;;
  image_np <- tensor_to_numpy input_image ;;
  heatmap <- apply_colormap combined_mask viridis ;;
  binary_mask <- apply_colormap combined_mask Greys_r ;;
  d1 <- tuple_get (u_shape image_np) 1 ;;
  d0 <- tuple_get (u_shape image_np) 0 ;;
  let dimensions := (d1, d0) in
  heatmap_resized <- resize_image heatmap dimensions ;;
  binary_mask_resized <- resize_image binary_mask dimensions ;;
  let alpha_heatmap := (1 # 2)%Q in
  let alpha_binary := 1%Q in
  overlay_heatmap <- overlay_image image_np heatmap_resized alpha_heatmap ;;
  overlay_binary <- overlay_image image_np binary_mask_resized alpha_binary ;;
  ret (combined_mask, overlay_heatmap, overlay_binary).

Definition combine_masks (input_image mask_1 mask_2 : farray) (mask_3 : option farray)
    : M CombineMasks (farray * farray * farray) :=
  ' (combined_mask, overlay_heatmap, overlay_binary) <-
    pure (combine_masks_overlays input_image mask_1 mask_2 mask_3) ;;
  (* lines 234-235: [numpy_to_tensor(overlay_heatmap)], [numpy_to_tensor(overlay_binary)] *)
  image_out_heatmap <-
    pure (apply_last "numpy_to_tensor" "dtype" (numpy_to_tensor_of overlay_heatmap) None) ;;
  image_out_binary <-
    pure (apply_last "numpy_to_tensor" "dtype" (numpy_to_tensor_of overlay_binary) None) ;;
  ret (combined_mask, image_out_heatmap, image_out_binary).

End Clipseg.

Arguments self {N} w.
Arguments log {N} w.

(* ------------------------------------------------------------------ *)
(** ** A concrete library for running the module                       *)
(* ------------------------------------------------------------------ *)

(** Stand-ins for the external libraries, for a given [to_pil_image]: a PIL
    image is its pixel array, the model returns fixed 2 x 2 logits, the
    sigmoid is a rational squashing function, the Gaussian filter leaves its
    input as it is, a colormap is a grey ramp, and resizing repeats the
    first pixel value. *)
Definition lib_with (pil : farray -> string -> lib_result u8array) : Library :=
  {| pil_image := u8array;
     processor := unit;
     segmodel := unit;
     model_inputs := unit;
     torch_device := unit;
     should_use_fp16 := inr false;
     get_torch_device := inr tt;
     to_pil_image := pil;
     CLIPSegProcessor_from_pretrained := fun _ => inr tt;
     CLIPSegForImageSegmentation_from_pretrained := fun _ => inr tt;
     model_to := fun m _ => inr m;
     processor_call := fun _ _ _ => inr tt;
     model_logits := fun _ _ =>
       inr {| f_dtype := float32; f_shape := [1; 2; 2]%nat;
              f_data := [Fin (-3); Fin (1 # 2); Fin 2; Fin (-1)] |};
     torch_sigmoid := fun t =>
       inr {| f_dtype := f_dtype t; f_shape := f_shape t;
              f_data := map (fun v => match v with
                                      | Fin q => Fin (Qred ((1 + q / (1 + Qabs q)) / 2))
                                      | PInf => Fin 1
                                      | NInf => Fin 0
                                      | NaN => NaN
                                      end) (f_data t) |};
     torch_add_broadcast := fun _ _ =>
       inl (LibExn "torch" "RuntimeError: the sizes of the tensors must match");
     gaussian_filter := fun a _ => inr a;
     colormap_call := fun _ a =>
       inr {| f_dtype := f_dtype a; f_shape := (f_shape a ++ [4%nat])%list;
              f_data := flat_map (fun v => [v; v; v; Fin 1]) (f_data a) |};
     cv2_resize_linear := fun img dims =>
       let c := last (u_shape img) 1%nat in
       inr {| u_shape := [snd dims; fst dims; c];
              u_data := repeat (hd x00 (u_data img)) (snd dims * fst dims * c) |};
     cv2_dilate_other := fun src _ =>
       if Nat.eqb (numel (f_shape src)) 0
       then inl (LibExn "cv2" "error: (-215:Assertion failed) !src.empty() in function 'dilate'")
       else inl (LibExn "cv2" "error: unsupported input");
     cv2_addWeighted_other := fun _ _ _ _ _ =>
       inl (LibExn "cv2" "error: the sizes of the input arguments do not match");
     cv2_reject_pil := fun _ => LibExn "cv2" "error: src1 is not a numerical array";
     cast_out_of_range := fun _ => x00;
     Image_fromarray := fun a => inr a;
     Image_convert := fun p _ => inr p;
     np_array := fun p => inr p |}.

(** Libraries in which every call succeeds wherever the real one can. *)
Definition lib0 : Library :=
  lib_with (fun t _ =>
    inr {| u_shape := f_shape t; u_data := map (fun _ => x80) (f_data t) |}).

(** Libraries whose [to_pil_image] refuses its input, as torchvision does
    for a tensor with four axes. *)
Definition lib_rejecting : Library :=
  lib_with (fun _ _ =>
    inl (LibExn "torchvision" "ValueError: pic should be 2/3 dimensional. Got 4 dimensions.")).

(** A 3 x 2 x 2 image tensor (channels first), two 2 x 2 masks, and a
    1 x 2 x 2 x 3 host image (batch, height, width, channels). *)
Definition image0 : farray :=
  {| f_dtype := float32; f_shape := [3; 2; 2]%nat;
     f_data := map Fin [0; 1 # 4; 1 # 2; 1; 1; 1 # 2; 1 # 4; 0; 1 # 5; 2 # 5; 3 # 5; 4 # 5]%Q |}.

Definition mask_a : farray :=
  {| f_dtype := float32; f_shape := [2; 2]%nat;
     f_data := map Fin [0; 1 # 2; 1; 3 # 4]%Q |}.

Definition mask_b : farray :=
  {| f_dtype := float32; f_shape := [2; 2]%nat;
     f_data := map Fin [1; 3 # 4; 0; 1 # 4]%Q |}.

Definition host_image0 : farray :=
  {| f_dtype := float32; f_shape := [1; 2; 2; 3]%nat;
     f_data := map Fin [0; 1 # 4; 1 # 2; 1; 1; 1 # 2; 1 # 4; 0; 1 # 5; 2 # 5; 3 # 5; 4 # 5]%Q |}.

(** A 2 x 2 RGB image and a second one of the same shape. *)
Definition rgb_dark : u8array := {| u_shape := [2; 2; 3]%nat; u_data := repeat x10 12 |}.
Definition rgb_light : u8array := {| u_shape := [2; 2; 3]%nat; u_data := repeat xf0 12 |}.

(** A constant tensor, as thresholding leaves it when no value passes. *)
Definition all_zero : farray :=
  {| f_dtype := float32; f_shape := [2; 2]%nat; f_data := map Fin [0; 0; 0; 0]%Q |}.

Definition clipseg0 : CLIPSeg lib0 := {| dtype := float32; device := tt : torch_device lib0 |}.

Definition world0 : world (CLIPSeg lib0) := {| self := clipseg0; log := [] |}.

Definition cworld0 : world CombineMasks := {| self := CombineMasks_object; log := [] |}.

Definition world_rejecting : world (CLIPSeg lib_rejecting) :=
  {| self := {| dtype := float32; device := tt : torch_device lib_rejecting |}; log := [] |}.

(** Well-formed arrays: as many elements as the shape says. *)
Definition wf_u8 (a : u8array) : Prop := List.length (u_data a) = numel (u_shape a).
Definition wf_f (a : farray) : Prop := List.length (f_data a) = numel (f_shape a).

(** A tensor of finite values is constant when all its values agree. *)
Definition constant (qs : list Q) : Prop :=
  forall a b, In a qs -> In b qs -> (a == b)%Q.
Definition nonconstant (qs : list Q) : Prop :=
  exists a b, In a qs /\ In b qs /\ ~ (a == b)%Q.

(** A method keeps the node object, or the whole world, as it found it. *)
Definition keeps_self {N A} (c : M N A) : Prop := forall w, self (snd (c w)) = self w.
Definition silent {N A} (c : M N A) : Prop := forall w, snd (c w) = w.

(** What a method returns, and the node object it leaves, depend on the
    world only through the node object: nothing is remembered in between. *)
Definition self_determined {N A} (c : M N A) : Prop :=
  forall w1 w2, self w1 = self w2 ->
    fst (c w1) = fst (c w2) /\ self (snd (c w1)) = self (snd (c w2)).

(** The events of one call of [do_clipseg]: the processor is read from disk,
    then the model, which is then moved to the device; a failed load ends
    the call. *)
Definition do_clipseg_events (L : Library) : list event :=
  FromPretrained "CLIPSegProcessor" pretrained_path ::
  match CLIPSegProcessor_from_pretrained L pretrained_path with
  | inl _ => []
  | inr _ =>
      FromPretrained "CLIPSegForImageSegmentation" pretrained_path ::
      match CLIPSegForImageSegmentation_from_pretrained L pretrained_path with
      | inl _ => []
      | inr _ => [ToDevice]
      end
  end.

(** An exception that came out of a library call. *)
Definition from_library (e : exn) : Prop := exists le, e = LibraryError le.

(** Every exception of [r] satisfies [P]. *)
Definition raises_within {A} (P : exn -> Prop) (r : result A) : Prop :=
  match r with
  | Ok _ => True
  | Err e => P e
  end.

(** A finite value of the unit interval. *)
Definition in_unit (v : fval) : Prop := exists q, v = Fin q /\ (0 <= q <= 1)%Q.

(** What the helper functions rely on from matplotlib and cv2.  A colormap
    applied to a float array of shape [s], with at least one axis, returns
    an RGBA array of shape [s + (4,)]; [cv2.resize] of a non-empty
    H0 x W0 x 3 uint8 image to the size [(w, h)] returns an h x w x 3
    image. *)
Record well_behaved (L : Library) : Prop := {
  colormap_returns : forall cmap a,
      f_shape a <> [] -> exists r, colormap_call L cmap a = inr r;
  colormap_rgba : forall cmap a r,
      f_shape a <> [] ->
      colormap_call L cmap a = inr r ->
      f_shape r = (f_shape a ++ [4%nat])%list /\ (wf_f a -> wf_f r);
  resize_returns : forall img h0 w0 w h,
      u_shape img = [h0; w0; 3%nat] -> wf_u8 img ->
      (0 < h0)%nat -> (0 < w0)%nat -> (0 < w)%nat -> (0 < h)%nat ->
      exists r, cv2_resize_linear L img (w, h) = inr r;
  resize_rgb : forall img h0 w0 w h r,
      u_shape img = [h0; w0; 3%nat] ->
      cv2_resize_linear L img (w, h) = inr r ->
      u_shape r = [h; w; 3%nat] /\ wf_u8 r
}.

(** A 2 x 2 RGB image with four different pixels, and a batched mask. *)
Definition rgb_ramp : u8array :=
  {| u_shape := [2; 2; 3]%nat;
     u_data := [x00; x10; x20; x30; x40; x50; x60; x70; x80; x90; xa0; xb0] |}.

Definition mask_batched : farray :=
  {| f_dtype := float32; f_shape := [1; 2; 4]%nat;
     f_data := map Fin [0; 1 # 8; 1 # 4; 3 # 8; 1 # 2; 5 # 8; 3 # 4; 1]%Q |}.

Definition mask_row : farray :=
  {| f_dtype := float32; f_shape := [4]%nat; f_data := map Fin [0; 1 # 4; 1 # 2; 1]%Q |}.

(** A mask without an axis, and a mask and an image without an element. *)
Definition mask_scalar : farray :=
  {| f_dtype := float32; f_shape := []; f_data := [Fin (1 # 2)] |}.

Definition mask_empty : farray :=
  {| f_dtype := float32; f_shape := [0; 2]%nat; f_data := [] |}.

Definition rgb_empty : u8array := {| u_shape := [0; 2; 3]%nat; u_data := [] |}.

(** Arrays that cv2 hands back in another layout: two rows of three bytes,
    and two 2 x 2 images with a channel axis of length one. *)
Definition row_dark : u8array := {| u_shape := [3]%nat; u_data := [x10; x20; x30] |}.
Definition row_light : u8array := {| u_shape := [3]%nat; u_data := [xd0; xe0; xf0] |}.
Definition grey_dark : u8array := {| u_shape := [2; 2; 1]%nat; u_data := repeat x10 4 |}.
Definition grey_light : u8array := {| u_shape := [2; 2; 1]%nat; u_data := repeat xf0 4 |}.

(** A float16 mask with three axes, as the pipeline builds it under fp16. *)
Definition mask_half : farray :=
  {| f_dtype := float16; f_shape := [1; 2; 2]%nat;
     f_data := map Fin [0; 1 # 2; 1; 3 # 4]%Q |}.

(** The float32 number nearest to 0.4, which is greater than 0.4. *)
Definition float32_of_0_4 : Q := 13421773 # 33554432.

Definition tensor_at_threshold : farray :=
  {| f_dtype := float32; f_shape := [1]%nat; f_data := [Fin float32_of_0_4] |}.

(** Libraries in which the pretrained directory is missing: loading the
    processor fails; every other call is that of [lib0]. *)
Definition lib_no_weights : Library :=
  {| pil_image := pil_image lib0;
     processor := processor lib0;
     segmodel := segmodel lib0;
     model_inputs := model_inputs lib0;
     torch_device := torch_device lib0;
     should_use_fp16 := should_use_fp16 lib0;
     get_torch_device := get_torch_device lib0;
     to_pil_image := to_pil_image lib0;
     CLIPSegProcessor_from_pretrained := fun _ =>
       inl (LibExn "transformers" "OSError: ./clipseg-rd64-refined is not a local folder");
     CLIPSegForImageSegmentation_from_pretrained :=
       CLIPSegForImageSegmentation_from_pretrained lib0;
     model_to := model_to lib0;
     processor_call := processor_call lib0;
     model_logits := model_logits lib0;
     torch_sigmoid := torch_sigmoid lib0;
     torch_add_broadcast := torch_add_broadcast lib0;
     gaussian_filter := gaussian_filter lib0;
     colormap_call := colormap_call lib0;
     cv2_resize_linear := cv2_resize_linear lib0;
     cv2_dilate_other := cv2_dilate_other lib0;
     cv2_addWeighted_other := cv2_addWeighted_other lib0;
     cv2_reject_pil := cv2_reject_pil lib0;
     cast_out_of_range := cast_out_of_range lib0;
     Image_fromarray := Image_fromarray lib0;
     Image_convert := Image_convert lib0;
     np_array := np_array lib0 |}.

Definition world_no_weights : world (CLIPSeg lib_no_weights) :=
  {| self := {| dtype := float32; device := tt : torch_device lib_no_weights |}; log := [] |}.

Ltac step_result H := rewrite H; cbn [bind Monad_result result_bind].

(* ------------------------------------------------------------------ *)
(** * Properties                                                       *)
(* ------------------------------------------------------------------ *)

(** ** Comparisons *)

Lemma Qltb_true (a b : Q) : Qltb a b = true <-> (a < b)%Q.
Proof.
  unfold Qltb. rewrite negb_true_iff. split.
  - intro H. apply Qnot_le_lt. intro Hle. apply Qle_bool_iff in Hle. congruence.
  - intro H. destruct (Qle_bool b a) eqn:E; [|reflexivity].
    apply Qle_bool_iff in E. apply Qlt_not_le in H. contradiction.
Qed.

Lemma Qltb_false (a b : Q) : Qltb a b = false <-> (b <= a)%Q.
Proof.
  unfold Qltb. rewrite negb_false_iff. apply Qle_bool_iff.
Qed.

Lemma Qltb_comp (a b b' : Q) : (b == b')%Q -> Qltb a b = Qltb a b'.
Proof.
  intro H. destruct (Qltb a b') eqn:E.
  - apply Qltb_true in E. apply Qltb_true. now rewrite H.
  - apply Qltb_false in E. apply Qltb_false. now rewrite H.
Qed.

(** ** Rounding is monotone *)

Lemma cvRound_floor (q : Q) : Qfloor q <= cvRound q <= Qfloor q + 1.
Proof.
  unfold cvRound. cbv zeta.
  destruct (q - inject_Z (Qfloor q) ?= 1 # 2)%Q; [destruct (Z.even (Qfloor q))| |]; lia.
Qed.

Lemma cvRound_monotone (x y : Q) : (x <= y)%Q -> cvRound x <= cvRound y.
Proof.
  intro Hxy.
  pose proof (Qfloor_resp_le x y Hxy) as Hf.
  destruct (Z.eq_dec (Qfloor x) (Qfloor y)) as [Heq|Hne].
  - unfold cvRound. cbv zeta. rewrite Heq.
    assert (Hr : (x - inject_Z (Qfloor y) <= y - inject_Z (Qfloor y))%Q) by lra.
    destruct (Qcompare_spec (x - inject_Z (Qfloor y)) (1 # 2)) as [Hx|Hx|Hx];
      destruct (Qcompare_spec (y - inject_Z (Qfloor y)) (1 # 2)) as [Hy|Hy|Hy];
      try lia; try (destruct (Z.even (Qfloor y)); lia);
      exfalso; try rewrite Hx in Hr; try rewrite Hy in Hr; lra.
  - pose proof (cvRound_floor x). pose proof (cvRound_floor y). lia.
Qed.

Lemma pow2_pos (e : Z) : (0 < pow2 e)%Q.
Proof. apply Qpower_0_lt. reflexivity. Qed.

Lemma pow2_le (a b : Z) : a <= b -> (pow2 a <= pow2 b)%Q.
Proof. intro H. apply Qpower_le_compat_l; [exact H|discriminate]. Qed.

Lemma pow2_add (a b : Z) : (pow2 (a + b) == pow2 a * pow2 b)%Q.
Proof. apply Qpower_plus. discriminate. Qed.

Lemma pow2_inject (n : Z) : 0 <= n -> (inject_Z (2 ^ n) == pow2 n)%Q.
Proof. intro H. apply (Zpower_Qpower 2 n H). Qed.

(** [2 ^ e] is the multiple [2 ^ n] of the spacing [2 ^ (e - n)]. *)
Lemma pow2_multiple (e n : Z) :
  0 <= n -> (pow2 e == inject_Z (2 ^ n) * pow2 (e - n))%Q.
Proof.
  intro Hn. rewrite (pow2_inject n Hn), <- pow2_add.
  replace (n + (e - n)) with e by lia. reflexivity.
Qed.

Lemma on_grid_monotone (p e : Z) (x y : Q) :
  (x <= y)%Q -> (on_grid p e x <= on_grid p e y)%Q.
Proof.
  intro Hxy. unfold on_grid. cbv zeta.
  pose proof (pow2_pos (e - p + 1)) as Hu.
  apply Qmult_le_compat_r; [|now apply Qlt_le_weak].
  rewrite <- Zle_Qle. apply cvRound_monotone.
  unfold Qdiv. apply Qmult_le_compat_r; [exact Hxy|].
  apply Qlt_le_weak, Qinv_lt_0_compat, Hu.
Qed.

(** A multiple of the spacing is on the grid. *)
Lemma on_grid_multiple (p e m : Z) (q : Q) :
  (q == inject_Z m * pow2 (e - p + 1))%Q -> (on_grid p e q == q)%Q.
Proof.
  intro Hq. unfold on_grid. cbv zeta.
  pose proof (pow2_pos (e - p + 1)) as Hu.
  assert (Hdiv : (q / pow2 (e - p + 1) == inject_Z m)%Q).
  { rewrite Hq. field. intro H0. rewrite H0 in Hu. now apply Qlt_irrefl in Hu. }
  assert (Hr : cvRound (q / pow2 (e - p + 1)) = m).
  { unfold cvRound. cbv zeta.
    assert (Hf : Qfloor (q / pow2 (e - p + 1)) = m) by (rewrite Hdiv; apply Qfloor_Z).
    rewrite Hf.
    assert (Hlt : (q / pow2 (e - p + 1) - inject_Z m < 1 # 2)%Q) by (rewrite Hdiv; lra).
    now rewrite (proj1 (Qlt_alt _ _) Hlt). }
  rewrite Hr. now symmetry.
Qed.

Lemma on_grid_pow2 (p e n : Z) :
  1 <= p -> n = e \/ n = e + 1 -> (on_grid p e (pow2 n) == pow2 n)%Q.
Proof.
  intros Hp Hn. apply (on_grid_multiple p e (2 ^ (n - (e - p + 1)))).
  rewrite (pow2_multiple n (n - (e - p + 1))) by lia.
  replace (n - (n - (e - p + 1))) with (e - p + 1) by lia. reflexivity.
Qed.

Lemma on_grid_zero (p e : Z) : (on_grid p e 0 == 0)%Q.
Proof. apply (on_grid_multiple p e 0). ring. Qed.

Lemma on_grid_upper (p e : Z) (q : Q) :
  1 <= p -> (q <= pow2 (e + 1))%Q -> (on_grid p e q <= pow2 (e + 1))%Q.
Proof.
  intros Hp Hq.
  apply Qle_trans with (on_grid p e (pow2 (e + 1))); [now apply on_grid_monotone|].
  apply Qle_lteq. right. apply on_grid_pow2; [exact Hp|now right].
Qed.

Lemma on_grid_lower (p e : Z) (q : Q) :
  1 <= p -> (pow2 e <= q)%Q -> (pow2 e <= on_grid p e q)%Q.
Proof.
  intros Hp Hq.
  apply Qle_trans with (on_grid p e (pow2 e)); [|now apply on_grid_monotone].
  apply Qle_lteq. right. symmetry. apply on_grid_pow2; [exact Hp|now left].
Qed.

Lemma on_grid_nonneg (p e : Z) (q : Q) : (0 <= q)%Q -> (0 <= on_grid p e q)%Q.
Proof.
  intro Hq.
  apply Qle_trans with (on_grid p e 0); [|now apply on_grid_monotone].
  apply Qle_lteq. right. symmetry. apply on_grid_zero.
Qed.

(** What [round_from] returns on a number that is at least [2 ^ e]. *)
Lemma round_from_lower (p : Z) (n : nat) : forall (e : Z) (q : Q),
  1 <= p -> (pow2 e <= q)%Q ->
  round_from p e n q = PInf
  \/ exists v, round_from p e n q = Fin v /\ (pow2 e <= v)%Q.
Proof.
  induction n as [|n IH]; intros e q Hp Hq; [now left|].
  cbn [round_from]. destruct (Qltb q (pow2 (e + 1))) eqn:E.
  - right. eexists. split; [reflexivity|]. now apply on_grid_lower.
  - apply Qltb_false in E.
    destruct (IH (e + 1) q Hp E) as [H|(v & Hv & Hle)]; [now left|].
    right. exists v. split; [exact Hv|].
    apply Qle_trans with (2 := Hle). apply pow2_le. lia.
Qed.

Lemma round_from_nonneg (p : Z) (n : nat) : forall (e : Z) (q : Q),
  (0 <= q)%Q ->
  round_from p e n q = PInf
  \/ exists v, round_from p e n q = Fin v /\ (0 <= v)%Q.
Proof.
  induction n as [|n IH]; intros e q Hq; [now left|].
  cbn [round_from]. destruct (Qltb q (pow2 (e + 1))).
  - right. eexists. split; [reflexivity|]. now apply on_grid_nonneg.
  - apply IH, Hq.
Qed.

Lemma round_from_monotone (p : Z) (n : nat) : forall (e : Z) (x y : Q),
  1 <= p -> (x <= y)%Q ->
  fltb (round_from p e n y) (round_from p e n x) = false.
Proof.
  induction n as [|n IH]; intros e x y Hp Hxy; [reflexivity|].
  cbn [round_from].
  destruct (Qltb x (pow2 (e + 1))) eqn:Ex, (Qltb y (pow2 (e + 1))) eqn:Ey.
  - cbn [fltb]. apply Qltb_false. now apply on_grid_monotone.
  - apply Qltb_true in Ex. apply Qltb_false in Ey.
    destruct (round_from_lower p n (e + 1) y Hp Ey) as [->|(v & -> & Hv)];
      [reflexivity|].
    cbn [fltb]. apply Qltb_false.
    apply Qle_trans with (2 := Hv). apply on_grid_upper; [exact Hp|].
    now apply Qlt_le_weak.
  - apply Qltb_false in Ex. apply Qltb_true in Ey. lra.
  - now apply IH.
Qed.

Lemma round_nonneg_values (fmt : float_format) (q : Q) :
  (0 <= q)%Q ->
  round_nonneg fmt q = PInf
  \/ exists v, round_nonneg fmt q = Fin v /\ (0 <= v)%Q.
Proof.
  intro Hq. unfold round_nonneg.
  destruct (round_from_nonneg (prec fmt) (Z.to_nat (emax fmt - emin fmt + 1)) (emin fmt) q Hq)
    as [->|(v & -> & Hv)]; [now left|].
  destruct (Qltb v (pow2 (emax fmt + 1))); [right; now exists v|now left].
Qed.

Lemma round_nonneg_monotone (fmt : float_format) (x y : Q) :
  1 <= prec fmt -> (0 <= x)%Q -> (x <= y)%Q ->
  fltb (round_nonneg fmt y) (round_nonneg fmt x) = false.
Proof.
  intros Hp Hx Hxy. unfold round_nonneg.
  pose proof (round_from_monotone (prec fmt) (Z.to_nat (emax fmt - emin fmt + 1))
                (emin fmt) x y Hp Hxy) as Hm.
  destruct (round_from_nonneg (prec fmt) (Z.to_nat (emax fmt - emin fmt + 1)) (emin fmt) x Hx)
    as [Hrx|(vx & Hrx & _)];
    destruct (round_from_nonneg (prec fmt) (Z.to_nat (emax fmt - emin fmt + 1)) (emin fmt) y
                (Qle_trans _ _ _ Hx Hxy))
      as [Hry|(vy & Hry & _)];
    rewrite Hrx, Hry in *; cbn [fltb] in Hm |- *; try reflexivity; try discriminate.
  - now destruct (Qltb vx (pow2 (emax fmt + 1))).
  - apply Qltb_false in Hm.
    destruct (Qltb vx (pow2 (emax fmt + 1))) eqn:Ex, (Qltb vy (pow2 (emax fmt + 1))) eqn:Ey;
      cbn [fltb]; try reflexivity.
    + now apply Qltb_false.
    + apply Qltb_false in Ex. apply Qltb_true in Ey. lra.
Qed.

Lemma fltb_fneg (a b : fval) : fltb (fneg a) (fneg b) = fltb b a.
Proof.
  destruct a as [x| | |], b as [y| | |]; try reflexivity.
  cbn [fneg fltb].
  destruct (Qltb y x) eqn:E.
  - apply Qltb_true in E. apply Qltb_true. lra.
  - apply Qltb_false in E. apply Qltb_false. lra.
Qed.

Lemma format_prec (dtype : torch_dtype) : 1 <= prec (format_of dtype).
Proof. destruct dtype; cbn; lia. Qed.

(** Converting to a dtype keeps the order of two numbers. *)
Lemma round_to_monotone (dtype : torch_dtype) (x y : Q) :
  (x <= y)%Q -> fltb (round_to dtype y) (round_to dtype x) = false.
Proof.
  intro Hxy. unfold round_to.
  pose proof (format_prec dtype) as Hp.
  destruct (Qltb x 0) eqn:Ex, (Qltb y 0) eqn:Ey.
  - apply Qltb_true in Ex. apply Qltb_true in Ey.
    rewrite fltb_fneg. apply round_nonneg_monotone; [exact Hp|lra|lra].
  - apply Qltb_true in Ex. apply Qltb_false in Ey.
    destruct (round_nonneg_values (format_of dtype) (- x)) as [->|(vx & -> & Hvx)]; [lra| |];
      destruct (round_nonneg_values (format_of dtype) y Ey) as [->|(vy & -> & Hvy)];
      cbn [fneg fltb]; try reflexivity.
    apply Qltb_false. lra.
  - apply Qltb_false in Ex. apply Qltb_true in Ey. lra.
  - apply Qltb_false in Ex. apply Qltb_false in Ey.
    now apply round_nonneg_monotone.
Qed.

(** An element passes the comparison only if it exceeds the number it is
    compared with, whatever the rounding. *)
Lemma cast_gt_exact (dtype : torch_dtype) (v : fval) (threshold : Q) :
  fgtb (cast dtype v) (round_to dtype threshold) = true -> fgtb v (Fin threshold) = true.
Proof.
  unfold fgtb. destruct v as [q| | |]; cbn [cast fltb]; intro H.
  - apply Qltb_true. destruct (Qlt_le_dec threshold q) as [Hlt|Hle]; [exact Hlt|].
    rewrite (round_to_monotone dtype q threshold Hle) in H. discriminate.
  - reflexivity.
  - now destruct (round_to dtype threshold).
  - now destruct (round_to dtype threshold).
Qed.

(** And an element that does not exceed the number does not pass. *)
Lemma cast_gt_none (dtype : torch_dtype) (v : fval) (threshold : Q) :
  fgtb v (Fin threshold) = false ->
  fgtb (cast dtype v) (round_to dtype threshold) = false.
Proof.
  intro H.
  destruct (fgtb (cast dtype v) (round_to dtype threshold)) eqn:E; [|reflexivity].
  apply cast_gt_exact in E. congruence.
Qed.

(** ** The threshold step *)

Lemma where_data_map (f : fval -> bool) (other : fval) (xs : list fval) :
  where_data (map f xs) xs other = map (fun v => if f v then v else other) xs.
Proof.
  induction xs as [|x xs IH]; simpl; [reflexivity|].
  now rewrite IH.
Qed.

Lemma threshold_step_data (tensor : farray) (threshold : Q) (dtype0 : torch_dtype) :
  f_data (threshold_step tensor threshold dtype0)
  = map (fun v => if fgtb (cast (f_dtype tensor) v) (round_to (f_dtype tensor) threshold)
                  then v else Fin 0)
        (f_data tensor).
Proof.
  unfold threshold_step, torch_where, tensor_gt. cbn [f_data b_data hd torch_tensor].
  apply where_data_map.
Qed.

(** C3 (amended). The threshold statement compares in the dtype of the
    tensor: it keeps an element as it is when the element, as a value of
    that dtype, is strictly greater than the threshold rounded to that
    dtype, and replaces every other element by 0 (a NaN compares false and
    becomes 0 as well).  For an element that the dtype represents the test
    is [round_to dtype threshold < v].  Shape and dtype of the tensor are
    kept, a kept value is not turned into 1, every kept element is strictly
    greater than the threshold parameter itself, and no element that does
    not exceed the parameter is kept. *)
Theorem threshold_step_elementwise :
  forall (tensor : farray) (threshold : Q) (dtype : torch_dtype),
    f_data (threshold_step tensor threshold dtype)
      = map (fun v => if fgtb (cast (f_dtype tensor) v)
                              (round_to (f_dtype tensor) threshold)
                      then v else Fin 0)
            (f_data tensor)
    /\ f_shape (threshold_step tensor threshold dtype) = f_shape tensor
    /\ f_dtype (threshold_step tensor threshold dtype) = f_dtype tensor
    /\ (forall i, nth_error (f_data (threshold_step tensor threshold dtype)) i
                  = option_map (fun v => if fgtb (cast (f_dtype tensor) v)
                                                 (round_to (f_dtype tensor) threshold)
                                         then v else Fin 0)
                               (nth_error (f_data tensor) i))
    /\ (forall (d : torch_dtype) (q r : Q),
          round_to d q = Fin r -> (r == q)%Q ->
          fgtb (cast d (Fin q)) (round_to d threshold) = fgtb (Fin q) (round_to d threshold))
    /\ (forall (d : torch_dtype) (v : fval),
          fgtb (cast d v) (round_to d threshold) = true -> fgtb v (Fin threshold) = true)
    /\ (forall (d : torch_dtype) (v : Q),
          (v <= threshold)%Q -> fgtb (cast d (Fin v)) (round_to d threshold) = false)
    /\ (forall d : torch_dtype, fgtb (cast d NaN) (round_to d threshold) = false)
    /\ f_data (threshold_step
                 {| f_dtype := float32; f_shape := [3%nat];
                    f_data := [Fin (3 # 4); Fin (1 # 2); Fin (1 # 4)] |}
                 (1 # 2) float32)
       = [Fin (3 # 4); Fin 0; Fin 0].
Proof.
  intros tensor threshold dtype0.
  split; [apply threshold_step_data|]. split; [reflexivity|]. split; [reflexivity|].
  split; [intro i; rewrite threshold_step_data; apply nth_error_map|].
  split.
  { intros d q r Hr Hrq. cbn [cast]. rewrite Hr. unfold fgtb.
    destruct (round_to d threshold) as [t| | |]; cbn [fltb]; try reflexivity.
    now apply Qltb_comp. }
  split; [intros d v; apply cast_gt_exact|].
  split.
  { intros d v Hv. apply cast_gt_none. now apply Qltb_false. }
  split; [|vm_compute; reflexivity].
  intro d. unfold fgtb. cbn [cast]. now destruct (round_to d threshold).
Qed.

(** ** Dilation *)

Lemma map_nth_seq (data : list fval) :
  map (fun p => nth p data NaN) (seq 0 (List.length data)) = data.
Proof.
  apply nth_ext with (d := NaN) (d' := NaN).
  - now rewrite length_map, length_seq.
  - intros n Hn. rewrite length_map, length_seq in Hn.
    rewrite (nth_indep _ NaN (nth 0%nat data NaN)) by now rewrite length_map, length_seq.
    rewrite (map_nth (fun p => nth p data NaN)).
    now rewrite seq_nth.
Qed.

(** Under a 1 x 1 kernel the neighbourhood of a pixel is the pixel. *)
Lemma dilate_pixel_1x1 (h w : nat) (data : list fval) (p : nat) :
  (p < h * w)%nat -> dilate_pixel h w data 1 1 p = nth p data NaN.
Proof.
  intro Hp.
  assert (Hw : (0 < w)%nat) by nia.
  assert (Hdiv : 0 <= Z.of_nat p / Z.of_nat w < Z.of_nat h).
  { split; [apply Z.div_pos; lia|].
    apply Z.div_lt_upper_bound; [lia|]. nia. }
  assert (Hmod : 0 <= Z.of_nat p mod Z.of_nat w < Z.of_nat w)
    by (apply Z.mod_pos_bound; lia).
  unfold dilate_pixel, neighbourhood, zrange.
  cbn [seq map flat_map app].
  change (Z.of_nat 1 / 2) with 0.
  change (Z.of_nat 0) with 0.
  rewrite !Z.add_0_r, !Z.sub_0_r.
  replace ((0 <=? Z.of_nat p / Z.of_nat w) && (Z.of_nat p / Z.of_nat w <? Z.of_nat h)
           && (0 <=? Z.of_nat p mod Z.of_nat w)
           && (Z.of_nat p mod Z.of_nat w <? Z.of_nat w)) with true.
  2:{ symmetry. rewrite !andb_true_iff, !Z.leb_le, !Z.ltb_lt. lia. }
  cbn [app fold_left].
  f_equal.
  rewrite <- (Nat2Z.id p) at 3.
  f_equal.
  rewrite Z.mul_comm. symmetry. apply Z.div_mod. lia.
Qed.

(** The maximum over 1 x 1 neighbourhoods is the copy that [cv2.dilate]
    makes for a kernel of a single element. *)
Lemma dilate_1x1_copies (h w : nat) (data : list fval) :
  List.length data = (h * w)%nat ->
  map (dilate_pixel h w data 1 1) (seq 0 (h * w)) = data.
Proof.
  intro Hlen. rewrite <- (map_nth_seq data) at 2. rewrite Hlen.
  apply map_ext_in. intros p Hp. apply in_seq in Hp.
  apply dilate_pixel_1x1. lia.
Qed.

Lemma kernel_size_integer (n : Z) : kernel_size (inject_Z n) = 2 * n + 1.
Proof.
  unfold kernel_size, py_int, inject_Z. cbn [Qmult Qnum Qden].
  change (Z.pos (1 * 1)) with 1.
  rewrite Z.quot_1_r. lia.
Qed.

Lemma kernel_size_nonneg (d : Q) : (0 <= d)%Q -> 1 <= kernel_size d.
Proof.
  intro Hd. unfold kernel_size, py_int.
  assert (0 <= Qnum (d * 2)).
  { destruct d as [n m]. unfold Qle in Hd. cbn in *. lia. }
  assert (0 <= Qnum (d * 2) ÷ Z.pos (Qden (d * 2))) by (apply Z.quot_pos; lia).
  lia.
Qed.

Section Properties.

Context (L : Library).

Lemma numel_cv2_layout (shape : list nat) : numel (cv2_layout shape) = numel shape.
Proof.
  unfold numel.
  destruct shape as [|a [|b [|[|[|c]] [|d rest]]]]; cbn [cv2_layout fold_right]; lia.
Qed.

(** A shape that cv2 hands back as it received it: two axes, or three with
    at least two channels. *)
Lemma cv2_layout_image (h w c : nat) :
  cv2_layout [h; w] = [h; w] /\ ((2 <= c)%nat -> cv2_layout [h; w; c] = [h; w; c]).
Proof.
  split; [reflexivity|]. intro Hc. destruct c as [|[|c]]; [lia|lia|reflexivity].
Qed.

Lemma cv2_dilate_1x1 (src : farray) :
  numel (f_shape src) <> 0%nat ->
  cv2_dilate L src {| u_shape := [1; 1]%nat; u_data := [x01] |}
  = Ok (Some {| f_dtype := f_dtype src;
                f_shape := cv2_layout (f_shape src);
                f_data := f_data src |}).
Proof.
  intro Hne. unfold cv2_dilate. cbn [u_shape].
  change (shape_eqb [1; 1]%nat [1; 1]%nat) with true. cbv iota.
  apply Nat.eqb_neq in Hne. now rewrite Hne.
Qed.

Lemma dilate_mask_zero (mask : farray) (dtype0 : torch_dtype) :
  numel (f_shape mask) <> 0%nat ->
  dilate_mask L mask 0 dtype0
  = Ok (type_as {| f_dtype := f_dtype mask;
                   f_shape := cv2_layout (f_shape mask);
                   f_data := f_data mask |} dtype0).
Proof.
  intro Hne. unfold dilate_mask.
  change (np_ones_square (kernel_size 0))
    with (Ok {| u_shape := [1; 1]%nat; u_data := [x01] |}).
  cbn [bind Monad_result result_bind].
  unfold numpy. rewrite (cv2_dilate_1x1 mask Hne).
  reflexivity.
Qed.

(** C7 (amended). With [dilation_factor] 0 the kernel is 1 x 1 and, for
    every non-empty mask tensor, whatever its dtype and its number of axes,
    [dilate_mask] returns the conversion to the requested dtype of a copy of
    the mask: every element keeps its value and its place, in the layout in
    which cv2 hands arrays back; a mask with two axes is returned as it is,
    up to the conversion, and as it is when its own dtype is requested.
    For an integer [dilation_factor >= 0], as the
    node's INT input supplies it, the kernel size is
    [2 * dilation_factor + 1], odd and at least 1; for any non-negative
    number it is at least 1. *)
Theorem dilate_mask_kernel (mask : farray) (dtype0 : torch_dtype)
    (Hnonempty : numel (f_shape mask) <> 0%nat) :
  kernel_size 0 = 1
  /\ np_ones_square (kernel_size 0) = Ok {| u_shape := [1; 1]%nat; u_data := [x01] |}
  /\ dilate_mask L mask 0 dtype0
     = Ok (type_as {| f_dtype := f_dtype mask;
                      f_shape := cv2_layout (f_shape mask);
                      f_data := f_data mask |} dtype0)
  /\ (forall h w : nat, f_shape mask = [h; w] ->
        dilate_mask L mask 0 dtype0 = Ok (type_as mask dtype0)
        /\ (dtype0 = f_dtype mask -> dilate_mask L mask 0 dtype0 = Ok mask))
  /\ (forall n : Z, 0 <= n ->
        kernel_size (inject_Z n) = 2 * n + 1
        /\ Z.odd (kernel_size (inject_Z n)) = true
        /\ 1 <= kernel_size (inject_Z n))
  /\ (forall d : Q, (0 <= d)%Q -> 1 <= kernel_size d).
Proof.
  split; [reflexivity|]. split; [reflexivity|].
  split; [now apply dilate_mask_zero|].
  split.
  - intros h w Hshape. rewrite (dilate_mask_zero mask dtype0 Hnonempty).
    unfold type_as. cbn [f_shape f_data]. rewrite Hshape. cbn [cv2_layout].
    split; [reflexivity|]. intros ->. f_equal.
    destruct mask as [dt sh data]. cbn [f_dtype f_shape f_data] in *. now subst sh.
  - split.
    + intros n Hn. rewrite kernel_size_integer.
      repeat split; [|lia].
      rewrite Z.add_comm, Z.odd_add_mul_2. reflexivity.
    + apply kernel_size_nonneg.
Qed.

(** ** Alpha-compositing with opacity 1 *)

Lemma saturate_u8_byte (b : byte) : saturate_u8 (byte_to_Z b) = b.
Proof.
  unfold saturate_u8, byte_to_Z.
  pose proof (Byte.to_N_bounded b) as Hb.
  destruct (Z.ltb_spec (Z.of_N (Byte.to_N b)) 0) as [Hneg|_]; [lia|].
  destruct (Z.ltb_spec 255 (Z.of_N (Byte.to_N b))) as [Hbig|_]; [lia|].
  rewrite N2Z.id, Byte.of_to_N. reflexivity.
Qed.

Lemma cvRound_integer (q : Q) (z : Z) : (q == inject_Z z)%Q -> cvRound q = z.
Proof.
  intro Hq. unfold cvRound.
  assert (Hf : Qfloor q = z) by (rewrite Hq; apply Qfloor_Z).
  rewrite Hf.
  assert (Hlt : (q - inject_Z z < 1 # 2)%Q) by (rewrite Hq; lra).
  cbv zeta. rewrite (proj1 (Qlt_alt _ _) Hlt). reflexivity.
Qed.

Lemma blend_foreground (a b : byte) : blend (1 - 1) 1 0 a b = b.
Proof.
  unfold blend.
  rewrite (cvRound_integer _ (byte_to_Z b)).
  - apply saturate_u8_byte.
  - unfold byte_to_Q. ring.
Qed.

Lemma blend_foreground_data (xs ys : list byte) :
  List.length xs = List.length ys ->
  map (fun ab => blend (1 - 1) 1 0 (fst ab) (snd ab)) (List.combine xs ys) = ys.
Proof.
  revert ys. induction xs as [|x xs IH]; intros [|y ys] Hlen;
    simpl in *; try discriminate; [reflexivity|].
  rewrite blend_foreground. f_equal. apply IH. lia.
Qed.

Lemma shape_eqb_refl (s : list nat) : shape_eqb s s = true.
Proof. unfold shape_eqb. destruct (list_eq_dec Nat.eq_dec s s); congruence. Qed.

Lemma overlay_image_same_shape (background foreground : u8array) (alpha : Q) :
  u_shape background = u_shape foreground ->
  numel (u_shape foreground) <> 0%nat ->
  overlay_image L background foreground alpha
  = Ok (Some {| u_shape := cv2_layout (u_shape foreground);
                u_data := map (fun ab => blend (1 - alpha) alpha 0 (fst ab) (snd ab))
                              (List.combine (u_data background) (u_data foreground)) |}).
Proof.
  intros Hs Hne. unfold overlay_image, cv2_addWeighted.
  rewrite Hs, shape_eqb_refl. apply Nat.eqb_neq in Hne. now rewrite Hne.
Qed.

Lemma overlay_image_opaque_values (background foreground : u8array) :
  wf_u8 background -> wf_u8 foreground ->
  u_shape background = u_shape foreground ->
  numel (u_shape foreground) <> 0%nat ->
  overlay_image L background foreground 1
  = Ok (Some {| u_shape := cv2_layout (u_shape foreground);
                u_data := u_data foreground |}).
Proof.
  intros Hb Hf Hs Hne. rewrite (overlay_image_same_shape _ _ _ Hs Hne).
  now rewrite blend_foreground_data by (red in Hb, Hf; congruence).
Qed.

Lemma overlay_image_opaque (background foreground : u8array) :
  wf_u8 background -> wf_u8 foreground ->
  u_shape background = u_shape foreground ->
  numel (u_shape foreground) <> 0%nat ->
  cv2_layout (u_shape foreground) = u_shape foreground ->
  overlay_image L background foreground 1 = Ok (Some foreground).
Proof.
  intros Hb Hf Hs Hne Hlayout.
  rewrite (overlay_image_opaque_values _ _ Hb Hf Hs Hne), Hlayout.
  now destruct foreground.
Qed.

(** C6 (amended). With opacity 1 [overlay_image] returns, for non-empty
    uint8 arrays of one shape, the values of the foreground and nothing of
    the background, in the layout in which cv2 hands arrays back; for
    images, H x W or H x W x C with at least two channels, that is the
    foreground itself.  Hence, when the resized binary colormap image is
    such an image of the shape of the input image, the overlay of
    [get_binary], and the binary overlay computed in [combine_masks], is the
    resized binary colormap image whatever the pixels of the input image
    are. *)
Theorem opaque_overlay_is_foreground :
  (forall background foreground : u8array,
      wf_u8 background -> wf_u8 foreground ->
      u_shape background = u_shape foreground ->
      numel (u_shape foreground) <> 0%nat ->
      overlay_image L background foreground 1
      = Ok (Some {| u_shape := cv2_layout (u_shape foreground);
                    u_data := u_data foreground |})
      /\ (cv2_layout (u_shape foreground) = u_shape foreground ->
          overlay_image L background foreground 1 = Ok (Some foreground)))
  /\ (forall h w c : nat,
        cv2_layout [h; w] = [h; w]
        /\ ((2 <= c)%nat -> cv2_layout [h; w; c] = [h; w; c]))
  /\ (forall (mask_dilated : farray) (image : u8array) (dtype0 : torch_dtype)
             (binary_mask binary_mask_resized : u8array) (dimensions : nat * nat),
        apply_colormap L mask_dilated Greys_r = Ok binary_mask ->
        image_dimensions L (ANumpy L image) = Ok dimensions ->
        resize_image L binary_mask dimensions = Ok binary_mask_resized ->
        wf_u8 image -> wf_u8 binary_mask_resized ->
        u_shape image = u_shape binary_mask_resized ->
        numel (u_shape binary_mask_resized) <> 0%nat ->
        cv2_layout (u_shape binary_mask_resized) = u_shape binary_mask_resized ->
        exists t,
          numpy_to_tensor binary_mask_resized dtype0 = Ok t
          /\ get_binary L mask_dilated (ANumpy L image) dtype0 = Ok (t, binary_mask_resized))
  /\ (forall (input_image mask_1 mask_2 : farray) (mask_3 : option farray)
             (combined_mask : farray)
             (image_np heatmap binary_mask heatmap_resized binary_mask_resized : u8array)
             (overlay_heatmap : option u8array) (d1 d0 : nat),
        combined_mask_of L mask_1 mask_2 mask_3 = Ok combined_mask ->
        tensor_to_numpy L input_image = Ok image_np ->
        apply_colormap L combined_mask viridis = Ok heatmap ->
        apply_colormap L combined_mask Greys_r = Ok binary_mask ->
        tuple_get (u_shape image_np) 1 = Ok d1 ->
        tuple_get (u_shape image_np) 0 = Ok d0 ->
        resize_image L heatmap (d1, d0) = Ok heatmap_resized ->
        resize_image L binary_mask (d1, d0) = Ok binary_mask_resized ->
        overlay_image L image_np heatmap_resized (1 # 2) = Ok overlay_heatmap ->
        wf_u8 image_np -> wf_u8 binary_mask_resized ->
        u_shape image_np = u_shape binary_mask_resized ->
        numel (u_shape binary_mask_resized) <> 0%nat ->
        cv2_layout (u_shape binary_mask_resized) = u_shape binary_mask_resized ->
        combine_masks_overlays L input_image mask_1 mask_2 mask_3
          = Ok (combined_mask, overlay_heatmap, Some binary_mask_resized)).
Proof.
  split; [|split; [|split]].
  - intros background foreground Hb Hf Hs Hne.
    split; [now apply overlay_image_opaque_values|now apply overlay_image_opaque].
  - apply cv2_layout_image.
  - intros mask_dilated image dtype0 bm r d Hbm Hd Hr Hwi Hwr Hs Hne Hlayout.
    eexists. split; [reflexivity|].
    unfold get_binary.
    step_result Hbm. step_result Hd. step_result Hr.
    cbn [as_cv2_array result_bind].
    rewrite (overlay_image_opaque image r Hwi Hwr Hs Hne Hlayout).
    reflexivity.
  - intros input_image mask_1 mask_2 mask_3 cm image_np hm bm hr r oh d1 d0
      Hcm Hnp Hhm Hbm Hd1 Hd0 Hhr Hr Hoh Hwi Hwr Hs Hne Hlayout.
    unfold combine_masks_overlays.
    step_result Hcm. step_result Hnp. step_result Hhm. step_result Hbm.
    step_result Hd1. step_result Hd0. step_result Hhr. step_result Hr.
    step_result Hoh.
    rewrite (overlay_image_opaque image_np r Hwi Hwr Hs Hne Hlayout).
    reflexivity.
Qed.

(** ** Normalisation *)

Lemma fold_min_finite (qs : list Q) : forall q0 : Q,
  exists m, fold_left fmin (map Fin qs) (Fin q0) = Fin m
            /\ In m (q0 :: qs)
            /\ forall x, In x (q0 :: qs) -> (m <= x)%Q.
Proof.
  induction qs as [|a qs IH]; intro q0.
  - exists q0. repeat split; [now left|].
    intros x [<-|[]]. apply Qle_refl.
  - cbn [map fold_left fmin fltb].
    destruct (Qltb a q0) eqn:E.
    + apply Qltb_true in E.
      destruct (IH a) as (m & Hm & Hin & Hle). exists m.
      split; [exact Hm|]. split.
      * right. exact Hin.
      * intros x [<-|Hx]; [|now apply Hle].
        apply Qle_trans with a; [apply Hle; now left|now apply Qlt_le_weak].
    + apply Qltb_false in E.
      destruct (IH q0) as (m & Hm & Hin & Hle). exists m.
      split; [exact Hm|]. split.
      * destruct Hin as [<-|Hin]; [now left|right; now right].
      * intros x [<-|[<-|Hx]].
        -- apply Hle; now left.
        -- apply Qle_trans with q0; [apply Hle; now left|exact E].
        -- apply Hle; now right.
Qed.

Lemma fold_max_finite (qs : list Q) : forall q0 : Q,
  exists m, fold_left fmax (map Fin qs) (Fin q0) = Fin m
            /\ In m (q0 :: qs)
            /\ forall x, In x (q0 :: qs) -> (x <= m)%Q.
Proof.
  induction qs as [|a qs IH]; intro q0.
  - exists q0. repeat split; [now left|].
    intros x [<-|[]]. apply Qle_refl.
  - cbn [map fold_left fmax fltb].
    destruct (Qltb q0 a) eqn:E.
    + apply Qltb_true in E.
      destruct (IH a) as (m & Hm & Hin & Hle). exists m.
      split; [exact Hm|]. split.
      * right. exact Hin.
      * intros x [<-|Hx]; [|now apply Hle].
        apply Qle_trans with a; [now apply Qlt_le_weak|apply Hle; now left].
    + apply Qltb_false in E.
      destruct (IH q0) as (m & Hm & Hin & Hle). exists m.
      split; [exact Hm|]. split.
      * destruct Hin as [<-|Hin]; [now left|right; now right].
      * intros x [<-|[<-|Hx]].
        -- apply Hle; now left.
        -- apply Qle_trans with q0; [exact E|apply Hle; now left].
        -- apply Hle; now right.
Qed.

(** On a non-empty tensor of finite values, line 182 computes
    [(q - min) / (max - min)] for every element [q]. *)
Lemma normalize_finite (t : farray) (qs : list Q) :
  f_data t = map Fin qs -> qs <> [] ->
  exists mn mx,
    In mn qs /\ In mx qs
    /\ (forall x, In x qs -> (mn <= x <= mx)%Q)
    /\ tensor_min t = Ok (Fin mn)
    /\ tensor_max t = Ok (Fin mx)
    /\ normalize_divisor t = Ok (Fin (mx + - mn))
    /\ normalize t
       = Ok {| f_dtype := f_dtype t; f_shape := f_shape t;
               f_data := map (fun q => fdiv (Fin (q + - mn)) (Fin (mx + - mn))) qs |}.
Proof.
  intros Hdata Hne. destruct qs as [|q0 qs]; [congruence|].
  destruct (fold_min_finite qs q0) as (mn & Hmn & Hinmn & Hlemn).
  destruct (fold_max_finite qs q0) as (mx & Hmx & Hinmx & Hlemx).
  assert (Hmin : tensor_min t = Ok (Fin mn)).
  { unfold tensor_min. rewrite Hdata. cbn [map]. now rewrite Hmn. }
  assert (Hmax : tensor_max t = Ok (Fin mx)).
  { unfold tensor_max. rewrite Hdata. cbn [map]. now rewrite Hmx. }
  assert (Hdiv : normalize_divisor t = Ok (Fin (mx + - mn))).
  { unfold normalize_divisor. rewrite Hmax, Hmin. reflexivity. }
  exists mn, mx. repeat split; auto.
  unfold normalize. rewrite Hmin. cbn [bind Monad_result result_bind].
  rewrite Hdiv. cbn [result_bind ret].
  unfold tensor_div_scalar, tensor_sub_scalar. cbn [f_dtype f_shape f_data].
  rewrite Hdata, !map_map. reflexivity.
Qed.

Lemma tensor_min_finite (m : farray) (ns : list Q) :
  f_data m = map Fin ns -> ns <> [] ->
  exists lo, tensor_min m = Ok (Fin lo) /\ In lo ns /\ forall x, In x ns -> (lo <= x)%Q.
Proof.
  intros Hdata Hne.
  destruct (normalize_finite m ns Hdata Hne) as (mn & mx & Hin & _ & Hb & Hmin & _).
  exists mn. repeat split; auto. intros x Hx. now apply Hb.
Qed.

Lemma tensor_max_finite (m : farray) (ns : list Q) :
  f_data m = map Fin ns -> ns <> [] ->
  exists hi, tensor_max m = Ok (Fin hi) /\ In hi ns /\ forall x, In x ns -> (x <= hi)%Q.
Proof.
  intros Hdata Hne.
  destruct (normalize_finite m ns Hdata Hne) as (mn & mx & _ & Hin & Hb & _ & Hmax & _).
  exists mx. repeat split; auto. intros x Hx. now apply Hb.
Qed.

Lemma fdiv_positive (x y : Q) : (0 < y)%Q -> fdiv (Fin x) (Fin y) = Fin (x / y).
Proof.
  intro Hy. unfold fdiv.
  destruct (Qeq_bool y 0) eqn:E; [|reflexivity].
  apply Qeq_bool_iff in E. rewrite E in Hy. now apply Qlt_irrefl in Hy.
Qed.

Lemma fdiv_zero_zero (x y : Q) : (x == 0)%Q -> (y == 0)%Q -> fdiv (Fin x) (Fin y) = NaN.
Proof.
  intros Hx Hy. unfold fdiv.
  apply Qeq_bool_iff in Hx. apply Qeq_bool_iff in Hy. now rewrite Hx, Hy.
Qed.

(** C8. Line 182 divides by [max - min] as it is.  On a tensor of finite
    values that is not constant, with minimum [mn] and maximum [mx], every
    element [q] becomes [(q - mn) / (mx - mn)], at its own place: the
    normalised mask has the shape, the dtype and the number of elements of
    the tensor, its values lie in [0, 1], its minimum is 0 and its maximum
    is 1.  On a constant tensor the divisor is 0, the division is still
    performed, and every element of the result is the NaN of 0/0. *)
Theorem normalize_range (t : farray) (qs : list Q)
    (Hfinite : f_data t = map Fin qs) (Hnonempty : qs <> []) :
  (nonconstant qs ->
     exists m ns mn mx,
       normalize t = Ok m
       /\ f_data m = map Fin ns
       /\ f_shape m = f_shape t
       /\ f_dtype m = f_dtype t
       /\ In mn qs /\ In mx qs /\ (mn < mx)%Q
       /\ (forall x, In x qs -> (mn <= x <= mx)%Q)
       /\ tensor_min t = Ok (Fin mn)
       /\ tensor_max t = Ok (Fin mx)
       /\ normalize_divisor t = Ok (Fin (mx + - mn))
       /\ ns = map (fun q => ((q + - mn) / (mx + - mn))%Q) qs
       /\ List.length ns = List.length qs
       /\ (forall i q, nth_error qs i = Some q ->
             nth_error (f_data m) i = Some (Fin ((q + - mn) / (mx + - mn))))
       /\ (forall n, In n ns -> (0 <= n <= 1)%Q)
       /\ (exists lo, tensor_min m = Ok (Fin lo) /\ (lo == 0)%Q)
       /\ (exists hi, tensor_max m = Ok (Fin hi) /\ (hi == 1)%Q))
  /\ (constant qs ->
     exists d m,
       normalize_divisor t = Ok (Fin d) /\ (d == 0)%Q
       /\ normalize t = Ok m
       /\ f_shape m = f_shape t
       /\ f_data m = map (fun _ => NaN) qs).
Proof.
  destruct (normalize_finite t qs Hfinite Hnonempty)
    as (mn & mx & Hinmn & Hinmx & Hb & Hmin & Hmax & Hdiv & Hnorm).
  split.
  - intros (a & b & Ha & Hb' & Hab).
    assert (Hmnmx : (mn < mx)%Q).
    { destruct (Qlt_le_dec mn mx) as [H|H]; [exact H|].
      exfalso. apply Hab.
      pose proof (Hb a Ha) as [? ?]. pose proof (Hb b Hb') as [? ?].
      apply Qle_antisym; lra. }
    assert (Hlt : (0 < mx + - mn)%Q) by lra.
    set (ns := map (fun q => ((q + - mn) / (mx + - mn))%Q) qs).
    assert (Hns : forall n, In n ns -> (0 <= n <= 1)%Q).
    { intros n Hn. apply in_map_iff in Hn. destruct Hn as (q & <- & Hq).
      pose proof (Hb q Hq) as [? ?]. split.
      - apply Qle_shift_div_l; [exact Hlt|lra].
      - apply Qle_shift_div_r; [exact Hlt|lra]. }
    assert (Hne : ns <> []).
    { unfold ns. destruct qs; [congruence|discriminate]. }
    eexists. exists ns, mn, mx. split; [exact Hnorm|].
    cbn [f_data f_shape f_dtype].
    assert (Hdata : map (fun q => fdiv (Fin (q + - mn)) (Fin (mx + - mn))) qs = map Fin ns).
    { unfold ns. rewrite map_map. apply map_ext. intro q. now apply fdiv_positive. }
    split; [exact Hdata|]. split; [reflexivity|]. split; [reflexivity|].
    split; [exact Hinmn|]. split; [exact Hinmx|]. split; [exact Hmnmx|].
    split; [exact Hb|]. split; [exact Hmin|]. split; [exact Hmax|]. split; [exact Hdiv|].
    split; [reflexivity|]. split; [unfold ns; apply length_map|].
    split.
    { intros i q Hq. rewrite nth_error_map, Hq. cbn [option_map].
      now rewrite fdiv_positive. }
    split; [exact Hns|]. split.
    + destruct (tensor_min_finite
                  {| f_dtype := f_dtype t; f_shape := f_shape t;
                     f_data := map (fun q => fdiv (Fin (q + - mn)) (Fin (mx + - mn))) qs |}
                  ns Hdata Hne) as (lo & Hlo & Hinlo & Hlow).
      exists lo. split; [exact Hlo|].
      apply Qle_antisym; [|now apply Hns].
      assert (Hz : In ((mn + - mn) / (mx + - mn))%Q ns)
        by (unfold ns; apply in_map_iff; now exists mn).
      apply Hlow in Hz.
      apply Qle_trans with (1 := Hz).
      apply Qle_shift_div_r; [exact Hlt|lra].
    + destruct (tensor_max_finite
                  {| f_dtype := f_dtype t; f_shape := f_shape t;
                     f_data := map (fun q => fdiv (Fin (q + - mn)) (Fin (mx + - mn))) qs |}
                  ns Hdata Hne) as (hi & Hhi & Hinhi & Hhigh).
      exists hi. split; [exact Hhi|].
      apply Qle_antisym; [now apply Hns|].
      assert (Hz : In ((mx + - mn) / (mx + - mn))%Q ns)
        by (unfold ns; apply in_map_iff; now exists mx).
      apply Hhigh in Hz.
      apply Qle_trans with (2 := Hz).
      apply Qle_shift_div_l; [exact Hlt|lra].
  - intro Hconst.
    assert (Hzero : (mx + - mn == 0)%Q).
    { rewrite (Hconst mx mn Hinmx Hinmn). ring. }
    exists (mx + - mn)%Q. eexists.
    split; [exact Hdiv|]. split; [exact Hzero|]. split; [exact Hnorm|].
    split; [reflexivity|].
    cbn [f_data]. apply map_ext_in. intros q Hq.
    apply fdiv_zero_zero; [|exact Hzero].
    rewrite (Hconst q mn Hq Hinmn). ring.
Qed.

(** ** Running node methods *)

Lemma run_bind {N A B} (c : M N A) (k : A -> M N B) (w : world N) :
  (x <- c ;; k x) w
  = match c w with
    | (Ok a, w') => k a w'
    | (Err e, w') => (Err e, w')
    end.
Proof. reflexivity. Qed.

Lemma silent_ret {N A} (a : A) : silent (ret a : M N A).
Proof. intro w. reflexivity. Qed.

Lemma silent_pure {N A} (r : result A) : silent (pure r : M N A).
Proof. intro w. reflexivity. Qed.

Lemma silent_getattr {N A} (attr : N -> A) : silent (getattr attr).
Proof. intro w. reflexivity. Qed.

Lemma silent_bind {N A B} (c : M N A) (k : A -> M N B) :
  silent c -> (forall a, silent (k a)) -> silent (x <- c ;; k x).
Proof.
  intros Hc Hk w. rewrite run_bind.
  specialize (Hc w). destruct (c w) as [[a|e] w']; cbn [snd] in *; subst w'.
  - apply Hk.
  - reflexivity.
Qed.

Lemma silent_keeps_self {N A} (c : M N A) : silent c -> keeps_self c.
Proof. intros Hc w. now rewrite Hc. Qed.

Lemma keeps_self_effect {N A} (ev : event) (r : lib_result A) :
  keeps_self (effect ev r : M N A).
Proof. intro w. reflexivity. Qed.

Lemma keeps_self_bind {N A B} (c : M N A) (k : A -> M N B) :
  keeps_self c -> (forall a, keeps_self (k a)) -> keeps_self (x <- c ;; k x).
Proof.
  intros Hc Hk w. rewrite run_bind.
  specialize (Hc w). destruct (c w) as [[a|e] w']; cbn [snd] in *.
  - now rewrite Hk.
  - exact Hc.
Qed.

Ltac silent_tac :=
  repeat first
    [ apply silent_ret | apply silent_pure | apply silent_getattr
    | apply silent_bind; [|intros]
    | match goal with |- silent (match ?x with _ => _ end) => destruct x end
    | progress cbv zeta ].

Ltac keeps_self_tac :=
  repeat first
    [ apply keeps_self_effect
    | apply silent_keeps_self; solve [silent_tac]
    | apply keeps_self_bind; [|intros]
    | match goal with |- keeps_self (match ?x with _ => _ end) => destruct x end
    | progress cbv zeta ].

Lemma get_mask_dilated_silent (flat : farray) (threshold blur dilation_factor : Q) :
  silent (get_mask_dilated L flat threshold blur dilation_factor).
Proof. unfold get_mask_dilated. silent_tac. Qed.

Lemma do_clipseg_keeps_self (prompt : string) (images : list (pil_image L)) :
  keeps_self (do_clipseg L prompt images).
Proof. unfold do_clipseg. keeps_self_tac. Qed.

Lemma segment_image_keeps_self (image : farray) (prompt : string)
    (blur threshold dilation_factor : Q) :
  keeps_self (segment_image L image prompt blur threshold dilation_factor).
Proof.
  unfold segment_image.
  apply keeps_self_bind; [apply silent_keeps_self, silent_pure|intro pil].
  apply keeps_self_bind; [apply do_clipseg_keeps_self|intro flat].
  apply silent_keeps_self.
  apply silent_bind; [apply get_mask_dilated_silent|intro mask_dilated].
  silent_tac.
Qed.

Lemma combine_masks_silent (input_image mask_1 mask_2 : farray) (mask_3 : option farray) :
  silent (combine_masks L input_image mask_1 mask_2 mask_3).
Proof. unfold combine_masks. silent_tac. Qed.

Lemma do_clipseg_log (prompt : string) (images : list (pil_image L))
    (w : world (CLIPSeg L)) :
  log (snd (do_clipseg L prompt images w)) = (log w ++ do_clipseg_events L)%list.
Proof.
  unfold do_clipseg, do_clipseg_events.
  rewrite run_bind. unfold effect at 1. cbn [log self].
  destruct (CLIPSegProcessor_from_pretrained L pretrained_path) as [e|processor];
    cbn [lib snd log]; [reflexivity|].
  rewrite run_bind. unfold effect at 1. cbn [log self].
  destruct (CLIPSegForImageSegmentation_from_pretrained L pretrained_path) as [e|loaded];
    cbn [lib snd log]; [now rewrite <- app_assoc|].
  rewrite run_bind. unfold getattr at 1. cbn [self].
  rewrite run_bind. unfold effect at 1. cbn [log self].
  destruct (model_to L loaded (device L (self w))) as [e|model];
    cbn [lib snd log]; [now rewrite <- !app_assoc|].
  match goal with
  | |- log (snd (?c ?w')) = _ => assert (Hs : silent c); [|rewrite (Hs w')]
  end.
  - silent_tac.
  - cbn [log]. now rewrite <- !app_assoc.
Qed.

Lemma self_determined_pure {N A} (r : result A) : self_determined (pure r : M N A).
Proof. intros w1 w2 H. now split. Qed.

Lemma self_determined_getattr {N A} (attr : N -> A) : self_determined (getattr attr).
Proof. intros w1 w2 H. unfold getattr. cbn. now rewrite H. Qed.

Lemma self_determined_effect {N A} (ev : event) (r : lib_result A) :
  self_determined (effect ev r : M N A).
Proof. intros w1 w2 H. now split. Qed.

Lemma self_determined_bind {N A B} (c : M N A) (k : A -> M N B) :
  self_determined c -> (forall a, self_determined (k a)) ->
  self_determined (x <- c ;; k x).
Proof.
  intros Hc Hk w1 w2 H. rewrite !run_bind.
  destruct (Hc w1 w2 H) as [Hfst Hsnd].
  destruct (c w1) as [r1 w1'], (c w2) as [r2 w2']. cbn [fst snd] in *. subst r2.
  destruct r1 as [a|e]; [now apply Hk|now split].
Qed.

Lemma do_clipseg_result (prompt : string) (images : list (pil_image L)) :
  self_determined (do_clipseg L prompt images).
Proof.
  unfold do_clipseg.
  repeat first
    [ apply self_determined_pure | apply self_determined_getattr
    | apply self_determined_effect | apply self_determined_bind; [|intros] ].
Qed.

Lemma segment_image_log (image : farray) (prompt : string)
    (blur threshold dilation_factor : Q) (w : world (CLIPSeg L)) :
  exists evs,
    log (snd (segment_image L image prompt blur threshold dilation_factor w))
      = (log w ++ evs)%list
    /\ (evs = [] \/ evs = do_clipseg_events L).
Proof.
  unfold segment_image. rewrite run_bind. unfold pure at 1.
  destruct (to_pil_image L image "RGB") as [e|pil]; cbn [lib].
  - exists []. split; [now rewrite app_nil_r|now left].
  - exists (do_clipseg_events L). split; [|now right].
    rewrite run_bind.
    pose proof (do_clipseg_log prompt [pil] w) as Hlog.
    destruct (do_clipseg L prompt [pil] w) as [[flat|e] w']; cbn [snd] in *;
      [|exact Hlog].
    rewrite <- Hlog. f_equal.
    match goal with
    | |- snd (?c w') = w' => assert (Hs : silent c); [|apply Hs]
    end.
    apply silent_bind; [apply get_mask_dilated_silent|intro mask_dilated].
    silent_tac.
Qed.

(** C4. Neither node keeps state between invocations.  [segment_image]
    leaves the node object (its [dtype] and [device]) as it found it and its
    only outside effects are the loads of [do_clipseg]; [combine_masks]
    leaves the node object and the log untouched.  Every call of
    [do_clipseg] reads the processor, and after it the model, from disk
    again: two calls in a row log the loads twice, and what a call returns
    does not depend on earlier calls. *)
Theorem nodes_keep_no_state :
  (forall image prompt blur threshold dilation_factor w,
      self (snd (segment_image L image prompt blur threshold dilation_factor w)) = self w
      /\ exists evs,
           log (snd (segment_image L image prompt blur threshold dilation_factor w))
             = (log w ++ evs)%list
           /\ (evs = [] \/ evs = do_clipseg_events L))
  /\ (forall input_image mask_1 mask_2 mask_3 w,
        snd (combine_masks L input_image mask_1 mask_2 mask_3 w) = w)
  /\ (forall prompt images w,
        self (snd (do_clipseg L prompt images w)) = self w
        /\ log (snd (do_clipseg L prompt images w)) = (log w ++ do_clipseg_events L)%list)
  /\ (forall prompt1 images1 prompt2 images2 w,
        log (snd (do_clipseg L prompt2 images2 (snd (do_clipseg L prompt1 images1 w))))
          = (log w ++ do_clipseg_events L ++ do_clipseg_events L)%list)
  /\ (forall prompt images w1 w2,
        self w1 = self w2 ->
        fst (do_clipseg L prompt images w1) = fst (do_clipseg L prompt images w2))
  /\ (exists rest,
        do_clipseg_events L = FromPretrained "CLIPSegProcessor" "./clipseg-rd64-refined" :: rest).
Proof.
  split; [|split; [|split; [|split; [|split]]]].
  - intros. split; [apply segment_image_keeps_self|apply segment_image_log].
  - intros. apply combine_masks_silent.
  - intros. split; [apply do_clipseg_keeps_self|apply do_clipseg_log].
  - intros. rewrite !do_clipseg_log. now rewrite app_assoc.
  - intros prompt images w1 w2 H. now apply do_clipseg_result.
  - unfold do_clipseg_events. eexists. reflexivity.
Qed.

(** ** What the two node methods return *)

Lemma segment_image_run (image : farray) (prompt : string)
    (blur threshold dilation_factor : Q) (w : world (CLIPSeg L)) :
  fst (segment_image L image prompt blur threshold dilation_factor w)
  = match to_pil_image L image "RGB" with
    | inl e => Err (LibraryError e)
    | inr pil =>
        match fst (do_clipseg L prompt [pil] w) with
        | Err e => Err e
        | Ok flat =>
            match torch_sigmoid L flat with
            | inl e => Err (LibraryError e)
            | inr tensor =>
                match gaussian_filter L
                        (threshold_step tensor threshold (dtype L (self w))) blur with
                | inl e => Err (LibraryError e)
                | inr smoothed =>
                    match normalize (type_as smoothed (dtype L (self w))) with
                    | Err e => Err e
                    | Ok _ => Err (missing "dilate_mask" "dtype")
                    end
                end
            end
        end
    end.
Proof.
  unfold segment_image. rewrite run_bind. unfold pure at 1.
  destruct (to_pil_image L image "RGB") as [e|pil]; cbn [lib fst]; [reflexivity|].
  rewrite run_bind.
  pose proof (do_clipseg_keeps_self prompt [pil] w) as Hself.
  destruct (do_clipseg L prompt [pil] w) as [[flat|e] w']; cbn [fst snd] in *;
    [|reflexivity].
  rewrite run_bind. unfold get_mask_dilated at 1.
  rewrite run_bind. unfold pure at 1.
  destruct (torch_sigmoid L flat) as [e|tensor]; cbn [lib fst]; [reflexivity|].
  rewrite run_bind. unfold getattr at 1. rewrite Hself. cbv zeta.
  rewrite run_bind. unfold pure at 1.
  destruct (gaussian_filter L _ blur) as [e|smoothed]; cbn [lib fst]; [reflexivity|].
  rewrite run_bind. unfold getattr at 1. rewrite Hself. cbv zeta.
  rewrite run_bind. unfold pure at 1.
  destruct (normalize _) as [mask_normalized|e]; reflexivity.
Qed.

Lemma combine_masks_run (input_image mask_1 mask_2 : farray) (mask_3 : option farray)
    (w : world CombineMasks) :
  combine_masks L input_image mask_1 mask_2 mask_3 w
  = (match combine_masks_overlays L input_image mask_1 mask_2 mask_3 with
     | Ok _ => Err (missing "numpy_to_tensor" "dtype")
     | Err e => Err e
     end, w).
Proof.
  unfold combine_masks. rewrite run_bind. unfold pure at 1.
  destruct (combine_masks_overlays L input_image mask_1 mask_2 mask_3)
    as [[[combined_mask overlay_heatmap] overlay_binary]|e]; reflexivity.
Qed.

(** C1. [segment_image] runs the pipeline in order (conversion to PIL, the
    model, sigmoid, threshold, Gaussian filter with [sigma = blur],
    normalisation) and then stops: the call of [dilate_mask] in
    [get_mask_dilated] has two arguments for three parameters, so the
    interpreter raises [TypeError].  Dilation, colorization, resizing and
    compositing are never reached and no tensor is returned, whatever the
    input is. *)
Theorem segment_image_stops_before_dilation :
  forall (image : farray) (prompt : string) (blur threshold dilation_factor : Q)
         (w : world (CLIPSeg L)),
    fst (segment_image L image prompt blur threshold dilation_factor w)
    = match to_pil_image L image "RGB" with
      | inl e => Err (LibraryError e)
      | inr pil =>
          match fst (do_clipseg L prompt [pil] w) with
          | Err e => Err e
          | Ok flat =>
              match torch_sigmoid L flat with
              | inl e => Err (LibraryError e)
              | inr tensor =>
                  match gaussian_filter L
                          (threshold_step tensor threshold (dtype L (self w))) blur with
                  | inl e => Err (LibraryError e)
                  | inr smoothed =>
                      match normalize (type_as smoothed (dtype L (self w))) with
                      | Err e => Err e
                      | Ok _ => Err (missing "dilate_mask" "dtype")
                      end
                  end
              end
          end
      end
    /\ (exists e, fst (segment_image L image prompt blur threshold dilation_factor w) = Err e)
    /\ segment_image lib0 image0 "cat" 7 (2 # 5) 4 world0
       = (Err (TypeError "dilate_mask() missing 1 required positional argument: 'dtype'"),
          {| self := clipseg0;
             log := [FromPretrained "CLIPSegProcessor" "./clipseg-rd64-refined";
                     FromPretrained "CLIPSegForImageSegmentation" "./clipseg-rd64-refined";
                     ToDevice] |}).
Proof.
  intros image prompt blur threshold dilation_factor w.
  split; [apply segment_image_run|]. split; [|vm_compute; reflexivity].
  rewrite segment_image_run.
  repeat match goal with
         | |- exists e, match ?x with _ => _ end = Err e => destruct x
         end; eexists; reflexivity.
Qed.

(** C2. [combine_masks] adds the masks elementwise, without clipping, and
    builds the two overlays; then the call [numpy_to_tensor(overlay_heatmap)]
    has one argument for two parameters and the interpreter raises
    [TypeError].  The method returns neither the combined mask nor an
    overlay. *)
Theorem combine_masks_never_returns :
  (forall (input_image mask_1 mask_2 : farray) (mask_3 : option farray)
          (w : world CombineMasks),
      combine_masks L input_image mask_1 mask_2 mask_3 w
      = (match combine_masks_overlays L input_image mask_1 mask_2 mask_3 with
         | Ok _ => Err (missing "numpy_to_tensor" "dtype")
         | Err e => Err e
         end, w))
  /\ (forall (d1 d2 : torch_dtype) (shape : list nat) (xs ys : list fval),
        combined_mask_of L
          {| f_dtype := d1; f_shape := shape; f_data := xs |}
          {| f_dtype := d2; f_shape := shape; f_data := ys |} None
        = Ok {| f_dtype := promote d1 d2; f_shape := shape;
                f_data := map (fun xy => fadd (fst xy) (snd xy)) (List.combine xs ys) |})
  /\ (forall (d1 d2 d3 : torch_dtype) (shape : list nat) (xs ys zs : list fval),
        combined_mask_of L
          {| f_dtype := d1; f_shape := shape; f_data := xs |}
          {| f_dtype := d2; f_shape := shape; f_data := ys |}
          (Some {| f_dtype := d3; f_shape := shape; f_data := zs |})
        = Ok {| f_dtype := promote (promote d1 d2) d3; f_shape := shape;
                f_data := map (fun xy => fadd (fst xy) (snd xy))
                            (List.combine
                               (map (fun xy => fadd (fst xy) (snd xy)) (List.combine xs ys))
                               zs) |})
  /\ combined_mask_of lib0 mask_a mask_b None
     = Ok {| f_dtype := float32; f_shape := [2; 2]%nat;
             f_data := [Fin 1; Fin (10 # 8); Fin 1; Fin (16 # 16)] |}
  /\ combine_masks lib0 host_image0 mask_a mask_b None cworld0
     = (Err (TypeError "numpy_to_tensor() missing 1 required positional argument: 'dtype'"),
        cworld0).
Proof.
  split; [|split; [|split; [|split]]].
  - apply combine_masks_run.
  - intros d1 d2 shape xs ys. unfold combined_mask_of, tensor_add.
    cbn [f_shape f_dtype f_data]. now rewrite shape_eqb_refl.
  - intros d1 d2 d3 shape xs ys zs. unfold combined_mask_of, tensor_add.
    cbn [f_shape f_dtype f_data]. rewrite shape_eqb_refl.
    cbn [bind Monad_result result_bind f_shape f_dtype f_data].
    now rewrite shape_eqb_refl.
  - vm_compute. reflexivity.
  - vm_compute. reflexivity.
Qed.

(** ** Where exceptions come from *)

Lemma raises_ok {A} (P : exn -> Prop) (a : A) : raises_within P (Ok a).
Proof. exact I. Qed.

Lemma raises_lib {A} (r : lib_result A) : raises_within from_library (lib r).
Proof. destruct r as [e|a]; cbn; [now exists e|exact I]. Qed.

Lemma raises_bind {A B} (P : exn -> Prop) (c : result A) (k : A -> result B) :
  raises_within P c -> (forall a, raises_within P (k a)) ->
  raises_within P (x <- c ;; k x).
Proof. intros Hc Hk. destruct c as [a|e]; cbn in *; [apply Hk|exact Hc]. Qed.

Lemma raises_weaken {A} (P Q : exn -> Prop) (r : result A) :
  (forall e, P e -> Q e) -> raises_within P r -> raises_within Q r.
Proof. intros HPQ Hr. destruct r as [a|e]; cbn in *; auto. Qed.

Ltac raises_tac :=
  repeat first
    [ apply raises_ok | apply raises_lib
    | apply raises_bind; [|intros]
    | match goal with |- raises_within _ (match ?x with _ => _ end) => destruct x end
    | progress cbv zeta ].

Lemma raises_library_or {A} (Q : exn -> Prop) (r : result A) :
  raises_within from_library r -> raises_within (fun e => from_library e \/ Q e) r.
Proof. apply raises_weaken. intros e He. now left. Qed.

Lemma tensor_min_raises (t : farray) : raises_within from_library (tensor_min t).
Proof. unfold tensor_min, raise_lib. destruct (f_data t); cbn; [eexists; reflexivity|exact I]. Qed.

Lemma tensor_max_raises (t : farray) : raises_within from_library (tensor_max t).
Proof. unfold tensor_max, raise_lib. destruct (f_data t); cbn; [eexists; reflexivity|exact I]. Qed.

Lemma normalize_raises (t : farray) : raises_within from_library (normalize t).
Proof.
  unfold normalize, normalize_divisor.
  repeat first [ apply tensor_min_raises | apply tensor_max_raises | raises_tac ].
Qed.

Lemma getitem0_raises (t : farray) : raises_within from_library (getitem0 t).
Proof.
  unfold getitem0, raise_lib.
  destruct (f_shape t) as [|[|n] rest]; cbn; try exact I; eexists; reflexivity.
Qed.

Lemma getitem_rgb_raises (a : farray) : raises_within from_library (getitem_rgb a).
Proof.
  unfold getitem_rgb, raise_lib.
  destruct (f_shape a) as [|h [|w [|c rest]]]; cbn; try exact I; eexists; reflexivity.
Qed.

(** [apply_colormap] raises what a library raised, or the [TypeError] of
    the subscript on the tuple that a colormap returns for a mask without an
    axis. *)
Lemma apply_colormap_raises (mask : farray) (cmap : colormap) :
  raises_within (fun e => from_library e \/ e = tuple_subscript)
    (apply_colormap L mask cmap).
Proof.
  unfold apply_colormap.
  apply raises_bind; [apply raises_library_or, raises_lib|intro rgba].
  apply raises_bind; [|intro colored_mask; exact I].
  unfold colormap_rgb. destruct (f_shape mask); [now right|].
  apply raises_library_or, getitem_rgb_raises.
Qed.

Lemma overlay_image_raises (background foreground : u8array) (alpha : Q) :
  raises_within from_library (overlay_image L background foreground alpha).
Proof.
  unfold overlay_image, cv2_addWeighted.
  destruct (shape_eqb _ _); [destruct (Nat.eqb _ _); exact I|apply raises_lib].
Qed.

Lemma tensor_add_raises (a b : farray) : raises_within from_library (tensor_add L a b).
Proof. unfold tensor_add. destruct (shape_eqb _ _); [exact I|apply raises_lib]. Qed.

Lemma tuple_get_raises (shape : list nat) (i : nat) :
  raises_within (fun e => e = IndexError "tuple index out of range") (tuple_get shape i).
Proof. unfold tuple_get. destruct (nth_error shape i); cbn; [exact I|reflexivity]. Qed.

Lemma combined_mask_of_raises (mask_1 mask_2 : farray) (mask_3 : option farray) :
  raises_within from_library (combined_mask_of L mask_1 mask_2 mask_3).
Proof.
  unfold combined_mask_of. destruct mask_3 as [m3|].
  - apply raises_bind; [apply tensor_add_raises|intro s; apply tensor_add_raises].
  - apply tensor_add_raises.
Qed.

(** Lines 215-231 raise what a library raised, the [TypeError] of the
    subscript in [apply_colormap] on masks without an axis, or the
    [IndexError] of [image_np.shape[1]] on an image without a second axis. *)
Lemma combine_masks_overlays_raises (input_image mask_1 mask_2 : farray)
    (mask_3 : option farray) :
  raises_within
    (fun e => from_library e \/ e = tuple_subscript
              \/ e = IndexError "tuple index out of range")
    (combine_masks_overlays L input_image mask_1 mask_2 mask_3).
Proof.
  assert (Hcolormap : forall mask cmap,
            raises_within
              (fun e => from_library e \/ e = tuple_subscript
                        \/ e = IndexError "tuple index out of range")
              (apply_colormap L mask cmap)).
  { intros mask cmap. eapply raises_weaken; [|apply apply_colormap_raises].
    intros e [He|He]; [now left|right; now left]. }
  assert (Hindex : forall shape i,
            raises_within
              (fun e => from_library e \/ e = tuple_subscript
                        \/ e = IndexError "tuple index out of range")
              (tuple_get shape i)).
  { intros shape i. eapply raises_weaken; [|apply tuple_get_raises].
    intros e He. right. now right. }
  unfold combine_masks_overlays.
  apply raises_bind;
    [apply raises_library_or, combined_mask_of_raises|intro combined_mask].
  apply raises_bind; [exact I|intro image_np].
  apply raises_bind; [apply Hcolormap|intro heatmap].
  apply raises_bind; [apply Hcolormap|intro binary_mask].
  apply raises_bind; [apply Hindex|intro d1].
  apply raises_bind; [apply Hindex|intro d0].
  cbv zeta.
  apply raises_bind; [apply raises_library_or, raises_lib|intro heatmap_resized].
  apply raises_bind; [apply raises_library_or, raises_lib|intro binary_mask_resized].
  apply raises_bind; [apply raises_library_or, overlay_image_raises|intro overlay_heatmap].
  apply raises_bind; [apply raises_library_or, overlay_image_raises|intro overlay_binary].
  exact I.
Qed.

Lemma do_clipseg_raises (prompt : string) (images : list (pil_image L))
    (w : world (CLIPSeg L)) :
  raises_within from_library (fst (do_clipseg L prompt images w)).
Proof.
  unfold do_clipseg.
  rewrite run_bind. unfold effect at 1.
  destruct (CLIPSegProcessor_from_pretrained L pretrained_path) as [e|processor];
    cbn [lib fst]; [now exists e|].
  rewrite run_bind. unfold effect at 1.
  destruct (CLIPSegForImageSegmentation_from_pretrained L pretrained_path) as [e|loaded];
    cbn [lib fst]; [now exists e|].
  rewrite run_bind. unfold getattr at 1.
  rewrite run_bind. unfold effect at 1.
  destruct (model_to L loaded _) as [e|model]; cbn [lib fst]; [now exists e|].
  rewrite run_bind. unfold pure at 1.
  destruct (processor_call L processor prompt images) as [e|inputs];
    cbn [lib fst]; [now exists e|].
  rewrite run_bind. unfold pure at 1.
  destruct (model_logits L model inputs) as [e|preds]; cbn [lib fst]; [now exists e|].
  unfold pure. cbn [fst]. apply getitem0_raises.
Qed.

Lemma segment_image_raises (image : farray) (prompt : string)
    (blur threshold dilation_factor : Q) (w : world (CLIPSeg L)) :
  raises_within (fun e => from_library e \/ e = missing "dilate_mask" "dtype")
    (fst (segment_image L image prompt blur threshold dilation_factor w)).
Proof.
  rewrite segment_image_run.
  destruct (to_pil_image L image "RGB") as [e|pil]; [left; now exists e|].
  pose proof (do_clipseg_raises prompt [pil] w) as Hclip.
  destruct (fst (do_clipseg L prompt [pil] w)) as [flat|e]; [|now left].
  destruct (torch_sigmoid L flat) as [e|tensor]; [left; now exists e|].
  destruct (gaussian_filter L _ blur) as [e|smoothed]; [left; now exists e|].
  match goal with |- context [normalize ?t] => pose proof (normalize_raises t) as Hn end.
  destruct (normalize _) as [m|e]; [now right|now left].
Qed.

Lemma combine_masks_raises (input_image mask_1 mask_2 : farray) (mask_3 : option farray)
    (w : world CombineMasks) :
  raises_within
    (fun e => from_library e \/ e = tuple_subscript
              \/ e = IndexError "tuple index out of range"
              \/ e = missing "numpy_to_tensor" "dtype")
    (fst (combine_masks L input_image mask_1 mask_2 mask_3 w)).
Proof.
  rewrite combine_masks_run. cbn [fst].
  pose proof (combine_masks_overlays_raises input_image mask_1 mask_2 mask_3) as H.
  destruct (combine_masks_overlays L input_image mask_1 mask_2 mask_3) as [r|e]; cbn in *.
  - right. right. now right.
  - destruct H as [H|[H|H]]; [now left|right; now left|right; right; now left].
Qed.

Lemma to_pil_image_error_propagates (image : farray) (prompt : string)
    (blur threshold dilation_factor : Q) (w : world (CLIPSeg L)) (le : lib_exn) :
  to_pil_image L image "RGB" = inl le ->
  segment_image L image prompt blur threshold dilation_factor w = (Err (LibraryError le), w).
Proof.
  intro H. unfold segment_image. rewrite run_bind. unfold pure at 1. now rewrite H.
Qed.

End Properties.

(** C5. Nothing in the module catches an exception: what a library call
    raises is what the method raises, and no output is produced.  But the
    module raises exceptions of its own: with libraries in which no call
    fails, both node methods end in the [TypeError] of a call with a missing
    argument, raised on the module's own statement and not inside a
    library.  Besides library exceptions, [segment_image] raises nothing
    but that [TypeError]; [combine_masks] raises it, or the [TypeError] of
    the subscript in [apply_colormap] on masks without an axis, or the
    [IndexError] of [image_np.shape[1]]. *)
Theorem own_TypeError_with_working_libraries :
  fst (segment_image lib0 image0 "cat" 7 (2 # 5) 4 world0)
    = Err (TypeError "dilate_mask() missing 1 required positional argument: 'dtype'")
  /\ fst (combine_masks lib0 host_image0 mask_a mask_b None cworld0)
    = Err (TypeError "numpy_to_tensor() missing 1 required positional argument: 'dtype'")
  /\ (forall msg le, TypeError msg <> LibraryError le)
  /\ (forall (L : Library) image prompt blur threshold dilation_factor w,
        raises_within (fun e => from_library e \/ e = missing "dilate_mask" "dtype")
          (fst (segment_image L image prompt blur threshold dilation_factor w)))
  /\ (forall (L : Library) input_image mask_1 mask_2 mask_3 w,
        raises_within
          (fun e => from_library e
                    \/ e = TypeError "tuple indices must be integers or slices, not tuple"
                    \/ e = IndexError "tuple index out of range"
                    \/ e = missing "numpy_to_tensor" "dtype")
          (fst (combine_masks L input_image mask_1 mask_2 mask_3 w)))
  /\ fst (combine_masks lib0 host_image0 mask_scalar mask_scalar None cworld0)
     = Err (TypeError "tuple indices must be integers or slices, not tuple")
  /\ segment_image lib_rejecting host_image0 "cat" 7 (2 # 5) 4 world_rejecting
     = (Err (LibraryError
               (LibExn "torchvision"
                  "ValueError: pic should be 2/3 dimensional. Got 4 dimensions.")),
        world_rejecting).
Proof.
  split; [vm_compute; reflexivity|]. split; [vm_compute; reflexivity|].
  split; [discriminate|].
  split; [intros; apply segment_image_raises|].
  split; [intros; apply combine_masks_raises|].
  split; vm_compute; reflexivity.
Qed.

(* ------------------------------------------------------------------ *)
(** * Instances on concrete inputs                                     *)
(* ------------------------------------------------------------------ *)

Lemma threshold_step_witness :
  f_data (threshold_step mask_a (1 # 2) float32) = [Fin 0; Fin 0; Fin 1; Fin (3 # 4)]
  /\ fgtb (cast float32 (Fin (3 # 4))) (round_to float32 (1 # 2))
     = fgtb (Fin (3 # 4)) (round_to float32 (1 # 2))
  /\ fgtb (cast float32 (Fin (1 # 2))) (round_to float32 (1 # 2)) = false.
Proof.
  destruct (threshold_step_elementwise mask_a (1 # 2) float32)
    as (Hdata & _ & _ & _ & Hrepresented & _ & Hbelow & _).
  split; [rewrite Hdata; vm_compute; reflexivity|].
  split.
  - eapply Hrepresented; [vm_compute; reflexivity|vm_compute; reflexivity].
  - apply Hbelow. discriminate.
Defined.

(** C3, as first stated, fails on an element between the threshold and
    its rounding.  At [threshold = 0.4] a float32 tensor is compared with
    the float32 number nearest to 0.4, which is greater than 0.4.  An
    element equal to that number, which float32 represents, is strictly
    greater than the threshold parameter and is replaced by 0. *)
Lemma threshold_rounded_to_dtype :
  fgtb (Fin float32_of_0_4) (Fin (2 # 5)) = true
  /\ round_to float32 (2 # 5) = Fin float32_of_0_4
  /\ cast float32 (Fin float32_of_0_4) = Fin float32_of_0_4
  /\ f_data (threshold_step tensor_at_threshold (2 # 5) float32) = [Fin 0].
Proof. repeat split; vm_compute; reflexivity. Qed.

(** C7, as first stated, fails on a half-integer or a negative factor, and
    on a mask without an element.  The kernel size at
    [dilation_factor = 0.5], which the signature of [dilate_mask]
    ([dilation_factor: float]) admits, is the even number 2, and at
    [dilation_factor = -1] it is [-1].  On an empty mask [cv2.dilate] gives
    no array back and [dilate_mask] raises. *)
Lemma kernel_size_half_is_even :
  kernel_size (1 # 2) = 2
  /\ Z.odd (kernel_size (1 # 2)) = false
  /\ kernel_size (-1) = -1
  /\ numel (f_shape mask_empty) = 0%nat
  /\ exists e, dilate_mask lib0 mask_empty 0 float32 = Err e /\ from_library e.
Proof.
  split; [reflexivity|]. split; [reflexivity|]. split; [reflexivity|].
  split; [reflexivity|].
  eexists. split; [reflexivity|]. eexists. reflexivity.
Qed.

Lemma dilate_mask_kernel_witness :
  numel (f_shape mask_half) <> 0%nat
  /\ dilate_mask lib0 mask_half 0 float32 = Ok (type_as mask_half float32)
  /\ kernel_size (inject_Z 4) = 9.
Proof.
  assert (Hnonempty : numel (f_shape mask_half) <> 0%nat) by (vm_compute; discriminate).
  split; [exact Hnonempty|].
  destruct (dilate_mask_kernel lib0 mask_half float32 Hnonempty)
    as (_ & _ & Hzero & _ & Hint & _).
  split; [exact Hzero|].
  destruct (Hint 4 (proj1 (Z.leb_le 0 4) eq_refl)) as (Hk & _ & _).
  exact Hk.
Defined.

(** C6, as first stated, fails on images without an element, for which
    [cv2.addWeighted] returns [None], and on arrays that cv2 hands back in
    another layout: a row of three bytes comes back as a 3 x 1 column and a
    2 x 2 x 1 image as a 2 x 2 one, with the values of the foreground. *)
Lemma opaque_overlay_of_empty_image :
  wf_u8 rgb_empty
  /\ overlay_image lib0 rgb_empty rgb_empty 1 = Ok None
  /\ overlay_image lib0 row_dark row_light 1
     = Ok (Some {| u_shape := [3; 1]%nat; u_data := u_data row_light |})
  /\ overlay_image lib0 grey_dark grey_light 1
     = Ok (Some {| u_shape := [2; 2]%nat; u_data := u_data grey_light |}).
Proof. repeat split. Qed.

Lemma opaque_overlay_witness :
  overlay_image lib0 rgb_dark rgb_light 1 = Ok (Some rgb_light)
  /\ (exists t r,
        get_binary lib0 mask_b (ANumpy lib0 rgb_dark) float32 = Ok (t, r)
        /\ get_binary lib0 mask_b (ANumpy lib0 rgb_light) float32 = Ok (t, r))
  /\ (exists cm oh r,
        combine_masks_overlays lib0 host_image0 mask_a mask_b None = Ok (cm, oh, Some r)
        /\ resize_image lib0
             {| u_shape := [2; 2; 3]%nat; u_data := repeat xff 12 |} (2%nat, 2%nat) = Ok r).
Proof.
  destruct (opaque_overlay_is_foreground lib0) as (Hoverlay & _ & Hbinary & Hcombine).
  split; [|split].
  - apply Hoverlay; first [reflexivity | vm_compute; discriminate].
  - edestruct (Hbinary mask_b rgb_dark float32) as (t & Ht & Hdark);
      [reflexivity | reflexivity | reflexivity | reflexivity | reflexivity | reflexivity
      | vm_compute; discriminate | reflexivity |].
    edestruct (Hbinary mask_b rgb_light float32) as (t' & Ht' & Hlight);
      [reflexivity | reflexivity | reflexivity | reflexivity | reflexivity | reflexivity
      | vm_compute; discriminate | reflexivity |].
    eexists _, _. split; [exact Hdark|].
    rewrite Hlight. rewrite Ht in Ht'. now inversion Ht'.
  - eexists _, _, _. split; [|reflexivity].
    eapply Hcombine; first [reflexivity | vm_compute; discriminate].
Defined.

Lemma normalize_range_witness :
  (exists m ns mn mx,
      normalize mask_a = Ok m
      /\ f_data m = map Fin ns
      /\ f_shape m = f_shape mask_a
      /\ f_dtype m = f_dtype mask_a
      /\ In mn [0; 1 # 2; 1; 3 # 4]%Q /\ In mx [0; 1 # 2; 1; 3 # 4]%Q /\ (mn < mx)%Q
      /\ (forall x, In x [0; 1 # 2; 1; 3 # 4]%Q -> (mn <= x <= mx)%Q)
      /\ tensor_min mask_a = Ok (Fin mn)
      /\ tensor_max mask_a = Ok (Fin mx)
      /\ normalize_divisor mask_a = Ok (Fin (mx + - mn))
      /\ ns = map (fun q => ((q + - mn) / (mx + - mn))%Q) [0; 1 # 2; 1; 3 # 4]%Q
      /\ List.length ns = 4%nat
      /\ (forall i q, nth_error [0; 1 # 2; 1; 3 # 4]%Q i = Some q ->
            nth_error (f_data m) i = Some (Fin ((q + - mn) / (mx + - mn))))
      /\ (forall n, In n ns -> (0 <= n <= 1)%Q)
      /\ (exists lo, tensor_min m = Ok (Fin lo) /\ (lo == 0)%Q)
      /\ (exists hi, tensor_max m = Ok (Fin hi) /\ (hi == 1)%Q))
  /\ (exists d m,
        normalize_divisor all_zero = Ok (Fin d) /\ (d == 0)%Q
        /\ normalize all_zero = Ok m
        /\ f_shape m = f_shape all_zero
        /\ f_data m = [NaN; NaN; NaN; NaN]).
Proof.
  split.
  - apply (proj1 (normalize_range mask_a [0; 1 # 2; 1; 3 # 4]%Q eq_refl
                    ltac:(discriminate))).
    exists 0%Q, 1%Q. split; [now left|]. split; [right; right; now left|].
    intro H. discriminate H.
  - apply (proj2 (normalize_range all_zero [0; 0; 0; 0]%Q eq_refl ltac:(discriminate))).
    intros a b Ha Hb. cbn [In] in Ha, Hb.
    destruct Ha as [<-|[<-|[<-|[<-|[]]]]]; destruct Hb as [<-|[<-|[<-|[<-|[]]]]];
      reflexivity.
Defined.

Lemma nodes_keep_no_state_witness :
  fst (do_clipseg lib0 "cat" [rgb_dark] world0)
  = fst (do_clipseg lib0 "cat" [rgb_dark]
           {| self := clipseg0; log := [ToDevice; ToDevice] |})
  /\ log (snd (do_clipseg lib0 "dog" [rgb_dark]
                 (snd (do_clipseg lib0 "cat" [rgb_dark] world0))))
     = [FromPretrained "CLIPSegProcessor" "./clipseg-rd64-refined";
        FromPretrained "CLIPSegForImageSegmentation" "./clipseg-rd64-refined";
        ToDevice;
        FromPretrained "CLIPSegProcessor" "./clipseg-rd64-refined";
        FromPretrained "CLIPSegForImageSegmentation" "./clipseg-rd64-refined";
        ToDevice].
Proof.
  destruct (nodes_keep_no_state lib0) as (_ & _ & _ & Htwice & Hsame & _).
  split.
  - apply Hsame. reflexivity.
  - apply (Htwice "cat" [rgb_dark] "dog" [rgb_dark] world0).
Defined.

(* ------------------------------------------------------------------ *)
(** * Further properties of the helper functions                       *)
(* ------------------------------------------------------------------ *)

(** ** Conversions between tensors and uint8 arrays *)

Lemma byte_to_Z_bounds (b : byte) : 0 <= byte_to_Z b <= 255.
Proof. unfold byte_to_Z. pose proof (Byte.to_N_bounded b). lia. Qed.

Lemma u8_to_unit_in_unit (b : byte) : in_unit (u8_to_unit b).
Proof.
  unfold in_unit, u8_to_unit. eexists. split; [reflexivity|].
  pose proof (byte_to_Z_bounds b) as [Hlo Hhi].
  unfold byte_to_Q. rewrite Zle_Qle in Hlo, Hhi.
  change (inject_Z 0) with 0%Q in Hlo. change (inject_Z 255) with 255%Q in Hhi. split.
  - apply Qle_shift_div_l; [reflexivity|]. lra.
  - apply Qle_shift_div_r; [reflexivity|]. lra.
Qed.



Lemma numel_squeeze (shape : list nat) : numel (squeeze_shape shape) = numel shape.
Proof.
  unfold numel, squeeze_shape.
  induction shape as [|n shape IH]; [reflexivity|].
  cbn [filter]. destruct (Nat.eqb_spec n 1) as [->|Hn]; cbn [negb fold_right].
  - rewrite IH. lia.
  - now rewrite IH.
Qed.

Lemma py_int_floor (x : Q) : (0 <= x)%Q -> py_int x = Qfloor x.
Proof.
  intro Hx. unfold py_int, Qfloor. destruct x as [n d]. cbn [Qnum Qden].
  apply Z.quot_div_nonneg; [|lia].
  unfold Qle in Hx. cbn in Hx. lia.
Qed.

Lemma astype_uint8_in_range (L : Library) (q : Q) :
  (0 <= q <= 1)%Q ->
  astype_uint8 L (fscale (Fin q) 255) = saturate_u8 (Qfloor (q * 255)).
Proof.
  intros [Hlo Hhi]. unfold astype_uint8, fscale.
  assert (H0 : (0 <= q * 255)%Q) by lra.
  rewrite (py_int_floor _ H0).
  assert (0 <= Qfloor (q * 255)).
  { pose proof (Qfloor_resp_le 0 (q * 255) H0) as H. exact H. }
  assert (Qfloor (q * 255) <= 255).
  { assert (H255 : (q * 255 <= 255)%Q) by lra.
    pose proof (Qfloor_resp_le (q * 255) 255 H255) as H'. exact H'. }
  destruct (Z.leb_spec 0 (Qfloor (q * 255))); [|lia].
  destruct (Z.leb_spec (Qfloor (q * 255)) 255); [reflexivity|lia].
Qed.

Section Conversions.

Context (L : Library).

(** X2. [tensor_to_numpy] always returns.  Every axis of length one is
    dropped, not only the batch axis, and the number of elements is kept: a
    1 x h x w x c image becomes h x w x c when none of h, w, c is 1, and a
    1 x 1 x w x c image becomes w x c.  On values of [0, 1] the conversion
    never reaches the cast of an out-of-range float: the result is the same
    under every library. *)
Theorem tensor_to_numpy_squeezes (tensor : farray) :
  exists a,
    tensor_to_numpy L tensor = Ok a
    /\ u_shape a = squeeze_shape (f_shape tensor)
    /\ List.length (u_data a) = List.length (f_data tensor)
    /\ (wf_f tensor -> wf_u8 a)
    /\ (forall h w c, f_shape tensor = [1; h; w; c]%nat ->
          h <> 1%nat -> w <> 1%nat -> c <> 1%nat -> u_shape a = [h; w; c])
    /\ (forall w c, f_shape tensor = [1; 1; w; c]%nat ->
          w <> 1%nat -> c <> 1%nat -> u_shape a = [w; c])
    /\ ((forall v, In v (f_data tensor) -> in_unit v) ->
          forall L' : Library, tensor_to_numpy L' tensor = Ok a).
Proof.
  eexists. split; [reflexivity|]. unfold numpy. cbn [u_shape u_data f_shape f_data].
  split; [reflexivity|]. split; [apply length_map|].
  split; [|split; [|split]].
  - unfold wf_f, wf_u8. cbn [u_shape u_data]. intro Hwf.
    now rewrite length_map, numel_squeeze.
  - intros h w c Hs Hh Hw Hc. rewrite Hs. cbn [squeeze_shape filter Nat.eqb negb].
    apply Nat.eqb_neq in Hh, Hw, Hc. now rewrite Hh, Hw, Hc.
  - intros w c Hs Hw Hc. rewrite Hs. cbn [squeeze_shape filter Nat.eqb negb].
    apply Nat.eqb_neq in Hw, Hc. now rewrite Hw, Hc.
  - intros Hunit L'. unfold tensor_to_numpy, numpy. cbn [ret Monad_result f_shape f_data].
    do 2 f_equal. apply map_ext_in. intros v Hv.
    destruct (Hunit v Hv) as (q & -> & Hq).
    now rewrite !astype_uint8_in_range.
Qed.

End Conversions.

(** ** More on the threshold and the normalisation statements *)

Lemma fgtb_NaN (v : fval) : fgtb NaN v = false.
Proof. now destruct v. Qed.

(** X3. Thresholding twice is thresholding once.  The thresholded tensor
    holds no NaN; each of its elements is 0 or an element of the input that
    is strictly greater than the threshold; and when no element of the input
    exceeds the threshold it is the zero tensor. *)
Theorem threshold_step_idempotent (tensor : farray) (threshold : Q) (d1 d2 : torch_dtype) :
  threshold_step (threshold_step tensor threshold d1) threshold d2
    = threshold_step tensor threshold d1
  /\ (forall v, In v (f_data (threshold_step tensor threshold d1)) ->
        v <> NaN
        /\ (v = Fin 0 \/ (In v (f_data tensor) /\ fgtb v (Fin threshold) = true)))
  /\ ((forall v, In v (f_data tensor) -> fgtb v (Fin threshold) = false) ->
        f_data (threshold_step tensor threshold d1) = map (fun _ => Fin 0) (f_data tensor)).
Proof.
  split; [|split].
  - unfold threshold_step at 1. unfold torch_where, tensor_gt.
    cbn [f_dtype f_shape f_data b_data hd torch_tensor].
    rewrite where_data_map.
    change (f_dtype (threshold_step tensor threshold d1)) with (f_dtype tensor).
    replace (map (fun v => if fgtb (cast (f_dtype tensor) v)
                                   (round_to (f_dtype tensor) threshold)
                           then v else Fin 0)
                 (f_data (threshold_step tensor threshold d1)))
      with (f_data (threshold_step tensor threshold d1)).
    + reflexivity.
    + rewrite threshold_step_data, map_map. apply map_ext. intro v.
      destruct (fgtb (cast (f_dtype tensor) v) (round_to (f_dtype tensor) threshold)) eqn:E;
        [now rewrite E|].
      now destruct (fgtb (cast (f_dtype tensor) (Fin 0)) (round_to (f_dtype tensor) threshold)).
  - intros v Hv. rewrite threshold_step_data in Hv.
    apply in_map_iff in Hv. destruct Hv as (u & <- & Hu).
    destruct (fgtb (cast (f_dtype tensor) u) (round_to (f_dtype tensor) threshold)) eqn:E.
    + split; [|right; split; [exact Hu|now apply cast_gt_exact in E]].
      intros ->. apply cast_gt_exact in E. rewrite fgtb_NaN in E. discriminate.
    + split; [discriminate|now left].
  - intro Hnone. rewrite threshold_step_data. apply map_ext_in. intros v Hv.
    now rewrite (cast_gt_none _ _ _ (Hnone v Hv)).
Qed.

Lemma normalize_nonconstant (t : farray) (qs : list Q) :
  f_data t = map Fin qs -> nonconstant qs ->
  exists mn mx,
    (mn < mx)%Q /\ In mn qs /\ In mx qs
    /\ (forall x, In x qs -> (mn <= x <= mx)%Q)
    /\ normalize t
       = Ok {| f_dtype := f_dtype t; f_shape := f_shape t;
               f_data := map Fin (map (fun q => ((q + - mn) / (mx + - mn))%Q) qs) |}.
Proof.
  intros Hdata (a & b & Ha & Hb & Hab).
  assert (Hne : qs <> []) by (destruct qs; [destruct Ha|discriminate]).
  destruct (normalize_finite t qs Hdata Hne)
    as (mn & mx & Hinmn & Hinmx & Hbound & _ & _ & _ & Hnorm).
  assert (Hlt : (mn < mx)%Q).
  { destruct (Qlt_le_dec mn mx) as [H|H]; [exact H|].
    exfalso. apply Hab.
    pose proof (Hbound a Ha) as [? ?]. pose proof (Hbound b Hb) as [? ?].
    apply Qle_antisym; lra. }
  exists mn, mx. repeat split; auto; try (now apply Hbound).
  rewrite Hnorm. do 2 f_equal. rewrite map_map. apply map_ext. intro q.
  apply fdiv_positive. lra.
Qed.

Lemma Forall2_map_Qeq (h : Q -> Q) (l : list Q) :
  (forall x, In x l -> (h x == x)%Q) -> Forall2 Qeq (map h l) l.
Proof.
  induction l as [|x l IH]; intro H; cbn [map]; constructor.
  - apply H. now left.
  - apply IH. intros y Hy. apply H. now right.
Qed.

(** X4. On a tensor of finite values that is not constant, the
    normalisation keeps the order of the values, and normalising the
    normalised mask again returns it with the same values and shape. *)
Theorem normalize_idempotent (t : farray) (qs : list Q)
    (Hfinite : f_data t = map Fin qs) (Hvaries : nonconstant qs) :
  exists m ns,
    normalize t = Ok m
    /\ f_data m = map Fin ns
    /\ (exists g : Q -> Q, ns = map g qs /\ forall x y, (x <= y)%Q -> (g x <= g y)%Q)
    /\ exists m' ns',
         normalize m = Ok m'
         /\ f_data m' = map Fin ns'
         /\ f_shape m' = f_shape t
         /\ Forall2 Qeq ns' ns.
Proof.
  destruct (normalize_nonconstant t qs Hfinite Hvaries)
    as (mn & mx & Hlt & Hinmn & Hinmx & Hbound & Hnorm).
  set (g := fun q => ((q + - mn) / (mx + - mn))%Q) in *.
  assert (Hd : (0 < mx + - mn)%Q) by lra.
  assert (Hg0 : (g mn == 0)%Q) by (unfold g; field; lra).
  assert (Hg1 : (g mx == 1)%Q) by (unfold g; field; lra).
  assert (Hgunit : forall x, In x qs -> (0 <= g x <= 1)%Q).
  { intros x Hx. destruct (Hbound x Hx). unfold g. split.
    - apply Qle_shift_div_l; [exact Hd|lra].
    - apply Qle_shift_div_r; [exact Hd|lra]. }
  eexists. exists (map g qs). split; [exact Hnorm|]. split; [reflexivity|]. split.
  - exists g. split; [reflexivity|]. intros x y Hxy. unfold g, Qdiv.
    apply Qmult_le_compat_r; [lra|]. apply Qlt_le_weak, Qinv_lt_0_compat, Hd.
  - assert (Hvaries' : nonconstant (map g qs)).
    { exists (g mn), (g mx). split; [now apply in_map|]. split; [now apply in_map|].
      rewrite Hg0, Hg1. discriminate. }
    destruct (normalize_nonconstant
                {| f_dtype := f_dtype t; f_shape := f_shape t;
                   f_data := map Fin (map g qs) |}
                (map g qs) eq_refl Hvaries')
      as (lo & hi & _ & Hinlo & Hinhi & Hbound' & Hnorm').
    assert (Hlo : (lo == 0)%Q).
    { apply Qle_antisym.
      - rewrite <- Hg0. apply Hbound'. now apply in_map.
      - apply in_map_iff in Hinlo. destruct Hinlo as (x & <- & Hx). now apply Hgunit. }
    assert (Hhi : (hi == 1)%Q).
    { apply Qle_antisym.
      - apply in_map_iff in Hinhi. destruct Hinhi as (x & <- & Hx). now apply Hgunit.
      - rewrite <- Hg1. apply Hbound'. now apply in_map. }
    eexists. eexists. split; [exact Hnorm'|]. cbn [f_data f_shape].
    split; [reflexivity|]. split; [reflexivity|].
    apply Forall2_map_Qeq. intros n _. rewrite Hlo, Hhi. field.
Qed.

(** ** Adding masks *)

Lemma fadd_comm (a b : fval) : fadd a b = fadd b a.
Proof.
  destruct a as [x| | |], b as [y| | |]; try reflexivity.
  cbn [fadd]. f_equal. unfold Qplus.
  now rewrite Z.add_comm, Pos.mul_comm.
Qed.

Lemma add_data_comm (xs ys : list fval) :
  map (fun xy => fadd (fst xy) (snd xy)) (List.combine xs ys)
  = map (fun xy => fadd (fst xy) (snd xy)) (List.combine ys xs).
Proof.
  revert ys. induction xs as [|x xs IH]; intros [|y ys]; cbn; try reflexivity.
  now rewrite fadd_comm, IH.
Qed.

Lemma promote_comm (d1 d2 : torch_dtype) : promote d1 d2 = promote d2 d1.
Proof. now destruct d1, d2. Qed.

Section Masks.

Context (L : Library).

Lemma tensor_add_comm (a b : farray) :
  f_shape a = f_shape b -> tensor_add L a b = tensor_add L b a.
Proof.
  intro Hs. unfold tensor_add. rewrite Hs, shape_eqb_refl.
  now rewrite promote_comm, add_data_comm.
Qed.

(** X5. For two masks of one shape the combined mask does not depend on
    the order of [mask_1] and [mask_2], with or without a third mask.  It
    has the shape of the masks, and on masks with values in [0, 1] every
    value of the sum of two lies in [0, 2]: the sum is not brought back to
    [0, 1]. *)
Theorem combined_mask_symmetric (mask_1 mask_2 : farray)
    (Hshape : f_shape mask_1 = f_shape mask_2) :
  (forall mask_3,
      combined_mask_of L mask_1 mask_2 mask_3 = combined_mask_of L mask_2 mask_1 mask_3)
  /\ exists combined_mask,
       combined_mask_of L mask_1 mask_2 None = Ok combined_mask
       /\ f_shape combined_mask = f_shape mask_1
       /\ ((forall v, In v (f_data mask_1) -> in_unit v) ->
           (forall v, In v (f_data mask_2) -> in_unit v) ->
           forall v, In v (f_data combined_mask) ->
             exists q, v = Fin q /\ (0 <= q <= 2)%Q).
Proof.
  split.
  - intros [m3|]; unfold combined_mask_of; now rewrite tensor_add_comm.
  - unfold combined_mask_of, tensor_add. rewrite Hshape, shape_eqb_refl.
    eexists. split; [reflexivity|]. cbn [f_shape f_data]. split; [now symmetry|].
    intros H1 H2 v Hv. apply in_map_iff in Hv. destruct Hv as ([x y] & <- & Hxy).
    destruct (H1 x (in_combine_l _ _ _ _ Hxy)) as (qx & -> & Hqx).
    destruct (H2 y (in_combine_r _ _ _ _ Hxy)) as (qy & -> & Hqy).
    cbn [fst snd fadd]. eexists. split; [reflexivity|]. lra.
Qed.

End Masks.

(** ** Alpha-compositing in general *)

Lemma cvRound_comp (q q' : Q) : (q == q')%Q -> cvRound q = cvRound q'.
Proof.
  intro H. unfold cvRound. rewrite (Qfloor_comp _ _ H).
  assert (Hr : (q - inject_Z (Qfloor q') == q' - inject_Z (Qfloor q'))%Q) by (rewrite H; reflexivity).
  cbv zeta. now rewrite (Qcompare_comp _ _ Hr (1 # 2) (1 # 2) (Qeq_refl _)).
Qed.

Lemma cvRound_between (a b : Z) (q : Q) :
  (inject_Z a <= q <= inject_Z b)%Q -> a <= cvRound q <= b.
Proof.
  intros [Ha Hb].
  assert (Hfa : a <= Qfloor q) by (rewrite <- (Qfloor_Z a); now apply Qfloor_resp_le).
  assert (Hfb : Qfloor q <= b) by (rewrite <- (Qfloor_Z b); now apply Qfloor_resp_le).
  assert (Hup : (0 < q - inject_Z (Qfloor q))%Q -> Qfloor q + 1 <= b).
  { intro Hpos.
    assert (Hlt : (inject_Z (Qfloor q) < inject_Z b)%Q) by lra.
    rewrite <- Zlt_Qlt in Hlt. lia. }
  unfold cvRound. cbv zeta.
  destruct (Qcompare_spec (q - inject_Z (Qfloor q)) (1 # 2)) as [Heq|Hlt|Hgt].
  - destruct (Z.even (Qfloor q)); [lia|].
    split; [lia|]. apply Hup. rewrite Heq. reflexivity.
  - lia.
  - split; [lia|]. apply Hup. lra.
Qed.

Lemma saturate_u8_value (z : Z) : 0 <= z <= 255 -> byte_to_Z (saturate_u8 z) = z.
Proof.
  intros [Hlo Hhi]. unfold saturate_u8, byte_to_Z.
  destruct (Z.ltb_spec z 0); [lia|]. destruct (Z.ltb_spec 255 z); [lia|].
  destruct (Byte.of_N (Z.to_N z)) as [b|] eqn:E.
  - apply Byte.to_of_N in E. rewrite E. lia.
  - apply Byte.of_N_None_iff in E. lia.
Qed.

Lemma byte_to_Z_inj (a b : byte) : byte_to_Z a = byte_to_Z b -> a = b.
Proof.
  intro H. rewrite <- (saturate_u8_byte a), <- (saturate_u8_byte b). now rewrite H.
Qed.

Lemma blend_background (a b : byte) : blend (1 - 0) 0 0 a b = a.
Proof.
  unfold blend. rewrite (cvRound_integer _ (byte_to_Z a)).
  - apply saturate_u8_byte.
  - unfold byte_to_Q. ring.
Qed.

Lemma blend_half_comm (a b : byte) :
  blend (1 - (1 # 2)) (1 # 2) 0 a b = blend (1 - (1 # 2)) (1 # 2) 0 b a.
Proof. unfold blend. f_equal. apply cvRound_comp. ring. Qed.

Lemma blend_half_between (a b : byte) :
  Z.min (byte_to_Z a) (byte_to_Z b)
    <= byte_to_Z (blend (1 - (1 # 2)) (1 # 2) 0 a b)
    <= Z.max (byte_to_Z a) (byte_to_Z b).
Proof.
  unfold blend.
  pose proof (byte_to_Z_bounds a) as Ha. pose proof (byte_to_Z_bounds b) as Hb.
  set (q := (byte_to_Q a * (1 - (1 # 2)) + byte_to_Q b * (1 # 2) + 0)%Q).
  assert (Hq : (inject_Z (Z.min (byte_to_Z a) (byte_to_Z b)) <= q
                <= inject_Z (Z.max (byte_to_Z a) (byte_to_Z b)))%Q).
  { unfold q, byte_to_Q.
    destruct (Z.le_ge_cases (byte_to_Z a) (byte_to_Z b)) as [Hab|Hab].
    - rewrite Z.min_l, Z.max_r by lia. rewrite Zle_Qle in Hab. lra.
    - rewrite Z.min_r, Z.max_l by lia. rewrite Zle_Qle in Hab. lra. }
  apply cvRound_between in Hq.
  rewrite saturate_u8_value; lia.
Qed.

Lemma nth_error_map_combine {A B C} (f : A * B -> C) (xs : list A) (ys : list B)
    (i : nat) (x : A) (y : B) :
  nth_error xs i = Some x -> nth_error ys i = Some y ->
  nth_error (map f (List.combine xs ys)) i = Some (f (x, y)).
Proof.
  revert xs ys. induction i as [|i IH]; intros [|x' xs] [|y' ys] Hx Hy;
    cbn in *; try discriminate.
  - now inversion Hx; inversion Hy.
  - now apply IH.
Qed.

Lemma combine_length_eq {A B} (xs : list A) (ys : list B) :
  List.length xs = List.length ys -> List.length (List.combine xs ys) = List.length xs.
Proof. intro H. rewrite length_combine. lia. Qed.

Lemma blend_background_data (xs ys : list byte) :
  List.length xs = List.length ys ->
  map (fun ab => blend (1 - 0) 0 0 (fst ab) (snd ab)) (List.combine xs ys) = xs.
Proof.
  revert ys. induction xs as [|x xs IH]; intros [|y ys] Hlen;
    simpl in *; try discriminate; [reflexivity|].
  rewrite blend_background. f_equal. apply IH. lia.
Qed.

Section Overlay.

Context (L : Library).

Lemma overlay_data_length (background foreground : u8array) (alpha : Q) :
  wf_u8 background -> wf_u8 foreground ->
  u_shape background = u_shape foreground ->
  List.length (map (fun ab => blend (1 - alpha) alpha 0 (fst ab) (snd ab))
                   (List.combine (u_data background) (u_data foreground)))
  = numel (u_shape background).
Proof.
  intros Hbg Hfg Hshape. red in Hbg, Hfg.
  rewrite length_map, combine_length_eq by congruence. exact Hbg.
Qed.

(** X6. On non-empty uint8 arrays of one shape [overlay_image] returns an
    array for every opacity, never [None]: it has as many elements as the
    inputs, in the layout in which cv2 hands arrays back, which for an image
    (two axes, or three with at least two channels) is the shape of the
    inputs.  With opacity 0 it holds the values of the background, and for
    an image it is the background. *)
Theorem overlay_image_shape (background foreground : u8array)
    (Hbg : wf_u8 background) (Hfg : wf_u8 foreground)
    (Hshape : u_shape background = u_shape foreground)
    (Hnonempty : numel (u_shape background) <> 0%nat) :
  (forall alpha : Q,
      exists r, overlay_image L background foreground alpha = Ok (Some r)
                /\ u_shape r = cv2_layout (u_shape background)
                /\ wf_u8 r
                /\ List.length (u_data r) = List.length (u_data background))
  /\ overlay_image L background foreground 0
     = Ok (Some {| u_shape := cv2_layout (u_shape background);
                   u_data := u_data background |})
  /\ (cv2_layout (u_shape background) = u_shape background ->
      (forall alpha : Q,
          exists r, overlay_image L background foreground alpha = Ok (Some r)
                    /\ u_shape r = u_shape background /\ wf_u8 r)
      /\ overlay_image L background foreground 0 = Ok (Some background))
  /\ (forall h w c : nat,
        cv2_layout [h; w] = [h; w]
        /\ ((2 <= c)%nat -> cv2_layout [h; w; c] = [h; w; c])).
Proof.
  assert (Hlen : List.length (u_data background) = List.length (u_data foreground))
    by (red in Hbg, Hfg; congruence).
  assert (Hne : numel (u_shape foreground) <> 0%nat) by now rewrite <- Hshape.
  assert (Hall : forall alpha : Q,
            exists r, overlay_image L background foreground alpha = Ok (Some r)
                      /\ u_shape r = cv2_layout (u_shape background)
                      /\ wf_u8 r
                      /\ List.length (u_data r) = List.length (u_data background)).
  { intro alpha. rewrite (overlay_image_same_shape L _ _ alpha Hshape Hne).
    eexists. split; [reflexivity|]. cbn [u_shape u_data].
    split; [now rewrite Hshape|].
    pose proof (overlay_data_length background foreground alpha Hbg Hfg Hshape) as Hl.
    split.
    - red. cbn [u_shape u_data]. now rewrite Hl, numel_cv2_layout, Hshape.
    - red in Hbg. now rewrite Hl. }
  assert (Hzero : overlay_image L background foreground 0
                  = Ok (Some {| u_shape := cv2_layout (u_shape background);
                                u_data := u_data background |})).
  { rewrite (overlay_image_same_shape L _ _ 0 Hshape Hne).
    now rewrite (blend_background_data _ _ Hlen), Hshape. }
  split; [exact Hall|]. split; [exact Hzero|]. split; [|apply cv2_layout_image].
  intro Hlayout. split.
  - intro alpha. destruct (Hall alpha) as (r & Hr & Hs & Hw & _).
    exists r. split; [exact Hr|]. split; [congruence|exact Hw].
  - rewrite Hzero, Hlayout. now destruct background.
Qed.

(** X7. With opacity 0.5, as for the heatmap, the overlay is symmetric in
    the two images; on non-empty arrays of one shape every value of it lies
    between the two values it is mixed from, and an array overlaid on itself
    comes back with its values, an image (two axes, or three with at least
    two channels) as it is. *)
Theorem overlay_image_half (background foreground : u8array)
    (Hbg : wf_u8 background) (Hfg : wf_u8 foreground)
    (Hshape : u_shape background = u_shape foreground)
    (Hnonempty : numel (u_shape background) <> 0%nat) :
  overlay_image L background foreground (1 # 2)
    = overlay_image L foreground background (1 # 2)
  /\ (exists r,
        overlay_image L background foreground (1 # 2) = Ok (Some r)
        /\ u_shape r = cv2_layout (u_shape background)
        /\ forall i x y,
             nth_error (u_data background) i = Some x ->
             nth_error (u_data foreground) i = Some y ->
             exists z, nth_error (u_data r) i = Some z
                       /\ Z.min (byte_to_Z x) (byte_to_Z y) <= byte_to_Z z
                          <= Z.max (byte_to_Z x) (byte_to_Z y))
  /\ overlay_image L background background (1 # 2)
     = Ok (Some {| u_shape := cv2_layout (u_shape background);
                   u_data := u_data background |})
  /\ (cv2_layout (u_shape background) = u_shape background ->
      overlay_image L background background (1 # 2) = Ok (Some background)).
Proof.
  assert (Hne : numel (u_shape foreground) <> 0%nat) by now rewrite <- Hshape.
  assert (Hself : overlay_image L background background (1 # 2)
                  = Ok (Some {| u_shape := cv2_layout (u_shape background);
                                u_data := u_data background |})).
  { rewrite (overlay_image_same_shape L _ _ (1 # 2) eq_refl Hnonempty).
    do 3 f_equal.
    generalize (u_data background). clear.
    induction l as [|x xs IH]; cbn; [reflexivity|]. rewrite IH. f_equal.
    apply byte_to_Z_inj.
    pose proof (blend_half_between x x) as H.
    rewrite Z.min_id, Z.max_id in H. lia. }
  split; [|split; [|split]].
  - rewrite (overlay_image_same_shape L _ _ (1 # 2) Hshape Hne).
    rewrite (overlay_image_same_shape L _ _ (1 # 2) (eq_sym Hshape) Hnonempty).
    rewrite Hshape. do 3 f_equal.
    generalize (u_data background), (u_data foreground).
    induction l as [|x xs IH]; intros [|y ys]; cbn; try reflexivity.
    now rewrite blend_half_comm, IH.
  - rewrite (overlay_image_same_shape L _ _ (1 # 2) Hshape Hne).
    eexists. split; [reflexivity|]. cbn [u_shape u_data].
    split; [now rewrite Hshape|].
    intros i x y Hx Hy. eexists. split.
    + apply (nth_error_map_combine _ _ _ _ _ _ Hx Hy).
    + cbn [fst snd]. apply blend_half_between.
  - exact Hself.
  - intro Hlayout. rewrite Hself, Hlayout. now destruct background.
Qed.

End Overlay.

(** ** Colormaps *)

Lemma filter_rgb_length {A} (n : nat) : forall (s : nat) (data : list A),
  List.length data = (4 * n)%nat ->
  List.length
    (filter (fun ix : nat * A => Nat.ltb (Nat.modulo (Nat.div (fst ix) 1) 4) 3)
       (List.combine (seq (4 * s) (List.length data)) data))
  = (3 * n)%nat.
Proof.
  induction n as [|n IH]; intros s data Hlen.
  - destruct data; [reflexivity|discriminate].
  - destruct data as [|a [|b [|c [|d rest]]]]; cbn [List.length] in Hlen; try lia.
    assert (Hrest : List.length rest = (4 * n)%nat) by lia.
    assert (Hkeep : forall i, (i < 4)%nat ->
              Nat.modulo (Nat.div (i + s * 4) 1) 4 = i).
    { intros i Hi. rewrite Nat.div_1_r, Nat.Div0.mod_add. now apply Nat.mod_small. }
    cbn [List.length seq List.combine filter fst].
    replace (4 * s)%nat with (0 + s * 4)%nat by lia.
    replace (S (0 + s * 4)) with (1 + s * 4)%nat by lia.
    replace (S (1 + s * 4)) with (2 + s * 4)%nat by lia.
    replace (S (2 + s * 4)) with (3 + s * 4)%nat by lia.
    rewrite !Hkeep by lia.
    change (Nat.ltb 0 3) with true. change (Nat.ltb 1 3) with true.
    change (Nat.ltb 2 3) with true. change (Nat.ltb 3 3) with false.
    cbv iota. cbn [List.length].
    replace (S (3 + s * 4)) with (4 * S s)%nat by lia.
    rewrite (IH (S s) rest Hrest). lia.
Qed.

Lemma select_rgb_length {A} (n : nat) (data : list A) :
  List.length data = (4 * n)%nat ->
  List.length (select (fun p => Nat.ltb (Nat.modulo (Nat.div p 1) 4) 3) data) = (3 * n)%nat.
Proof.
  intro Hlen. unfold select. rewrite length_map.
  apply (filter_rgb_length n 0 data Hlen).
Qed.

Section Colormaps.

Context (L : Library) (Hlib : well_behaved L).

Lemma apply_colormap_2d (mask : farray) (cmap : colormap) (h w : nat) :
  f_shape mask = [h; w] -> wf_f mask ->
  exists image,
    apply_colormap L mask cmap = Ok image
    /\ u_shape image = [h; w; 3%nat]
    /\ wf_u8 image.
Proof.
  intros Hshape Hwf.
  assert (Haxes : f_shape (numpy mask) <> []) by (unfold numpy; rewrite Hshape; discriminate).
  destruct (colormap_returns L Hlib cmap (numpy mask) Haxes) as (rgba & Hcall).
  destruct (colormap_rgba L Hlib cmap (numpy mask) rgba Haxes Hcall) as (Hs & Hwfr).
  unfold numpy in *. rewrite Hshape in Hs. cbn [app] in Hs.
  specialize (Hwfr Hwf). red in Hwfr. rewrite Hs in Hwfr. cbn [numel fold_right] in Hwfr.
  unfold apply_colormap, numpy. rewrite Hcall. cbn [lib bind Monad_result result_bind].
  unfold colormap_rgb, getitem_rgb. rewrite Hshape, Hs.
  cbn [result_bind ret numel fold_right Nat.min].
  eexists. split; [reflexivity|]. cbn [u_shape u_data f_shape f_data].
  split; [reflexivity|].
  red. cbn [u_shape u_data numel fold_right]. rewrite length_map.
  rewrite (select_rgb_length (h * w)); lia.
Qed.

(** X8. With a colormap that works as matplotlib's, [apply_colormap]
    turns a two-dimensional h x w mask into an h x w x 3 uint8 image with
    all its [3 * h * w] elements: the alpha channel is dropped. *)
Theorem apply_colormap_rgb (mask : farray) (cmap : colormap) (h w : nat)
    (Hshape : f_shape mask = [h; w]) (Hwf : wf_f mask) :
  exists image,
    apply_colormap L mask cmap = Ok image
    /\ u_shape image = [h; w; 3%nat]
    /\ wf_u8 image
    /\ List.length (u_data image) = (3 * List.length (f_data mask))%nat.
Proof.
  destruct (apply_colormap_2d mask cmap h w Hshape Hwf) as (image & Hrun & Hs & Hw).
  exists image. split; [exact Hrun|]. split; [exact Hs|]. split; [exact Hw|].
  red in Hw, Hwf. rewrite Hw, Hs, Hwf, Hshape. unfold numel. cbn [fold_right]. lia.
Qed.

(** X9. The indexing [[:, :, :3]] is applied to whatever the colormap
    returns.  A mask with one axis makes [apply_colormap] raise numpy's
    [IndexError]; a batched b x h x w mask, the host's layout for masks, is
    not turned into an RGB image: the result has shape b x h x min(w, 3) x 4,
    the third axis cut to 3 and all four channels kept. *)
Theorem apply_colormap_other_ranks (mask : farray) (cmap : colormap) :
  (forall n, f_shape mask = [n] ->
     apply_colormap L mask cmap
     = Err (LibraryError (LibExn "numpy" "IndexError: too many indices for array")))
  /\ (forall b h w, f_shape mask = [b; h; w] ->
        exists image, apply_colormap L mask cmap = Ok image
                      /\ u_shape image = [b; h; Nat.min w 3; 4%nat]).
Proof.
  assert (Hrun : forall shape, f_shape mask = shape -> shape <> [] ->
            exists rgba, colormap_call L cmap mask = inr rgba
                         /\ f_shape rgba = (shape ++ [4%nat])%list).
  { intros shape Hshape Hne.
    assert (Haxes : f_shape mask <> []) by now rewrite Hshape.
    destruct (colormap_returns L Hlib cmap mask Haxes) as (rgba & Hcall).
    destruct (colormap_rgba L Hlib cmap mask rgba Haxes Hcall) as (Hs & _).
    exists rgba. split; [exact Hcall|now rewrite <- Hshape]. }
  split.
  - intros n Hshape.
    destruct (Hrun [n] Hshape ltac:(discriminate)) as (rgba & Hcall & Hs).
    unfold apply_colormap, numpy. rewrite Hcall.
    cbn [lib bind Monad_result result_bind]. unfold colormap_rgb, getitem_rgb.
    cbn [app] in Hs. now rewrite Hshape, Hs.
  - intros b h w Hshape.
    destruct (Hrun [b; h; w] Hshape ltac:(discriminate)) as (rgba & Hcall & Hs).
    unfold apply_colormap, numpy. rewrite Hcall.
    cbn [lib bind Monad_result result_bind]. unfold colormap_rgb, getitem_rgb.
    cbn [app] in Hs. rewrite Hshape, Hs.
    cbn [result_bind ret]. eexists. split; reflexivity.
Qed.

End Colormaps.

(** ** The two overlay helpers *)

Section Helpers.

Context (L : Library).

Lemma overlay_image_returns (background foreground : u8array) (alpha : Q) :
  wf_u8 background -> wf_u8 foreground ->
  u_shape background = u_shape foreground ->
  numel (u_shape background) <> 0%nat ->
  cv2_layout (u_shape background) = u_shape background ->
  exists r, overlay_image L background foreground alpha = Ok (Some r)
            /\ u_shape r = u_shape background /\ wf_u8 r.
Proof.
  intros Hbg Hfg Hshape Hne Hlayout.
  rewrite (overlay_image_same_shape L _ _ alpha Hshape) by now rewrite <- Hshape.
  eexists. split; [reflexivity|]. cbn [u_shape u_data].
  split; [now rewrite <- Hshape|].
  red. cbn [u_shape u_data].
  rewrite (overlay_data_length background foreground alpha Hbg Hfg Hshape).
  now rewrite <- Hshape, Hlayout.
Qed.

Lemma numel_image (H W : nat) :
  (0 < H)%nat -> (0 < W)%nat -> numel [H; W; 3%nat] <> 0%nat.
Proof. intros HH HW. unfold numel. cbn [fold_right]. nia. Qed.

Lemma image_dimensions_short (a : u8array) :
  (List.length (u_shape a) < 2)%nat ->
  image_dimensions L (ANumpy L a) = Err (IndexError "tuple index out of range").
Proof.
  intro Hlen. unfold image_dimensions. cbn [image_shape bind Monad_result result_bind].
  unfold tuple_get. destruct (u_shape a) as [|n [|m rest]]; cbn in *; try reflexivity; lia.
Qed.

(** X10. [get_heatmap] and [get_binary] read [image.shape] right after the
    colormap.  On the PIL image that [segment_image] passes they raise
    [AttributeError], and on an array with fewer than two axes they raise
    [IndexError]; in both cases nothing is resized or overlaid. *)
Theorem overlay_helpers_reject_image (mask_dilated : farray) (dtype0 : torch_dtype) :
  (forall p : pil_image L,
      get_heatmap L mask_dilated (APil L p) dtype0
      = match apply_colormap L mask_dilated viridis with
        | Ok _ => Err (AttributeError "'Image' object has no attribute 'shape'")
        | Err e => Err e
        end
      /\ get_binary L mask_dilated (APil L p) dtype0
         = match apply_colormap L mask_dilated Greys_r with
           | Ok _ => Err (AttributeError "'Image' object has no attribute 'shape'")
           | Err e => Err e
           end)
  /\ (forall a : u8array, (List.length (u_shape a) < 2)%nat ->
        get_heatmap L mask_dilated (ANumpy L a) dtype0
        = match apply_colormap L mask_dilated viridis with
          | Ok _ => Err (IndexError "tuple index out of range")
          | Err e => Err e
          end
        /\ get_binary L mask_dilated (ANumpy L a) dtype0
           = match apply_colormap L mask_dilated Greys_r with
             | Ok _ => Err (IndexError "tuple index out of range")
             | Err e => Err e
             end).
Proof.
  split.
  - intro p. unfold get_heatmap, get_binary.
    split; destruct (apply_colormap L mask_dilated _); reflexivity.
  - intros a Hlen. unfold get_heatmap, get_binary.
    split; destruct (apply_colormap L mask_dilated _);
      cbn [bind Monad_result result_bind]; try reflexivity;
      now rewrite image_dimensions_short.
Qed.

Context (Hlib : well_behaved L).

Lemma resized_colormap (mask : farray) (cmap : colormap) (mh mw H W : nat) :
  f_shape mask = [mh; mw] -> wf_f mask ->
  (0 < mh)%nat -> (0 < mw)%nat -> (0 < H)%nat -> (0 < W)%nat ->
  exists colored resized,
    apply_colormap L mask cmap = Ok colored
    /\ resize_image L colored (W, H) = Ok resized
    /\ u_shape resized = [H; W; 3%nat]
    /\ wf_u8 resized.
Proof.
  intros Hshape Hwf Hmh Hmw HH HW.
  destruct (apply_colormap_2d L Hlib mask cmap mh mw Hshape Hwf) as (colored & Hc & Hcs & Hcw).
  destruct (resize_returns L Hlib colored mh mw W H Hcs Hcw Hmh Hmw HW HH) as (r & Hr).
  destruct (resize_rgb L Hlib colored mh mw W H r Hcs Hr) as (Hrs & Hrw).
  exists colored, r. unfold resize_image. rewrite Hr. repeat split; assumption.
Qed.

(** X11. With a colormap and a resize that work as matplotlib's and cv2's,
    [get_heatmap] returns for every non-empty two-dimensional mask and every
    non-empty H x W x 3 uint8 image, whatever the size of the mask: a tensor
    of shape 1 x H x W x 3 and of the requested dtype whose values are finite
    and lie in [0, 1]. *)
Theorem get_heatmap_returns (mask_dilated : farray) (image : u8array)
    (dtype0 : torch_dtype) (mh mw H W : nat)
    (Hmask : f_shape mask_dilated = [mh; mw]) (Hmwf : wf_f mask_dilated)
    (Hmh : (0 < mh)%nat) (Hmw : (0 < mw)%nat)
    (Himage : u_shape image = [H; W; 3%nat]) (Hiwf : wf_u8 image)
    (HH : (0 < H)%nat) (HW : (0 < W)%nat) :
  exists t,
    get_heatmap L mask_dilated (ANumpy L image) dtype0 = Ok t
    /\ f_shape t = [1; H; W; 3]%nat
    /\ f_dtype t = dtype0
    /\ wf_f t
    /\ forall v, In v (f_data t) -> in_unit v.
Proof.
  destruct (resized_colormap mask_dilated viridis mh mw H W Hmask Hmwf Hmh Hmw HH HW)
    as (heatmap & resized & Hc & Hr & Hrs & Hrw).
  destruct (overlay_image_returns image resized (1 # 2) Hiwf Hrw) as (ov & Hov & Hovs & Hovw);
    [congruence|rewrite Himage; now apply numel_image|now rewrite Himage|].
  unfold get_heatmap. step_result Hc.
  unfold image_dimensions. cbn [image_shape bind Monad_result result_bind].
  rewrite Himage. cbn [tuple_get nth_error result_bind ret Monad_result].
  step_result Hr. cbn [as_cv2_array result_bind]. step_result Hov.
  cbn [numpy_to_tensor_of].
  eexists. split; [reflexivity|].
  cbn [f_shape f_dtype f_data unsqueeze0 type_as from_numpy].
  split; [now rewrite Hovs, Himage|]. split; [reflexivity|]. split.
  - unfold wf_f, unsqueeze0, type_as, from_numpy. cbn [f_shape f_data].
    rewrite length_map. red in Hovw. rewrite Hovw. unfold numel. cbn [fold_right]. lia.
  - intros v Hv. apply in_map_iff in Hv. destruct Hv as (b & <- & _).
    apply u8_to_unit_in_unit.
Qed.

(** X12. Under the same conditions [get_binary] returns: the second output
    is the binary colormap image resized to H x W x 3, and the first is that
    very image as a 1 x H x W x 3 tensor with values in [0, 1]; the pixels of
    the input image do not enter either. *)
Theorem get_binary_returns (mask_dilated : farray) (image : u8array)
    (dtype0 : torch_dtype) (mh mw H W : nat)
    (Hmask : f_shape mask_dilated = [mh; mw]) (Hmwf : wf_f mask_dilated)
    (Hmh : (0 < mh)%nat) (Hmw : (0 < mw)%nat)
    (Himage : u_shape image = [H; W; 3%nat]) (Hiwf : wf_u8 image)
    (HH : (0 < H)%nat) (HW : (0 < W)%nat) :
  exists t resized,
    get_binary L mask_dilated (ANumpy L image) dtype0 = Ok (t, resized)
    /\ u_shape resized = [H; W; 3%nat]
    /\ f_shape t = [1; H; W; 3]%nat
    /\ f_dtype t = dtype0
    /\ f_data t = map u8_to_unit (u_data resized)
    /\ (forall v, In v (f_data t) -> in_unit v)
    /\ (forall image' : u8array, u_shape image' = [H; W; 3%nat] -> wf_u8 image' ->
          get_binary L mask_dilated (ANumpy L image') dtype0 = Ok (t, resized)).
Proof.
  destruct (resized_colormap mask_dilated Greys_r mh mw H W Hmask Hmwf Hmh Hmw HH HW)
    as (binary_mask & resized & Hc & Hr & Hrs & Hrw).
  assert (Hrun : forall image' : u8array, u_shape image' = [H; W; 3%nat] -> wf_u8 image' ->
            get_binary L mask_dilated (ANumpy L image') dtype0
            = Ok (unsqueeze0
                    (type_as
                       (from_numpy {| f_dtype := float32; f_shape := u_shape resized;
                                      f_data := map u8_to_unit (u_data resized) |})
                       dtype0), resized)).
  { intros image' Hs Hw. unfold get_binary. step_result Hc.
    unfold image_dimensions. cbn [image_shape bind Monad_result result_bind].
    rewrite Hs. cbn [tuple_get nth_error result_bind ret Monad_result].
    step_result Hr. cbn [as_cv2_array result_bind].
    rewrite (overlay_image_opaque L image' resized Hw Hrw);
      [reflexivity|congruence|rewrite Hrs; now apply numel_image|now rewrite Hrs]. }
  eexists. exists resized. split; [exact (Hrun image Himage Hiwf)|].
  cbn [f_shape f_dtype f_data unsqueeze0 type_as from_numpy].
  split; [exact Hrs|]. split; [now rewrite Hrs|]. split; [reflexivity|].
  split; [reflexivity|]. split; [|exact Hrun].
  intros v Hv. apply in_map_iff in Hv. destruct Hv as (b & <- & _).
  apply u8_to_unit_in_unit.
Qed.

End Helpers.

(** ** [combine_masks] on ordinary inputs *)

Section CombineOrdinary.

Context (L : Library) (Hlib : well_behaved L).

Lemma tensor_add_same_shape (a b : farray) :
  f_shape a = f_shape b -> wf_f a -> wf_f b ->
  exists c, tensor_add L a b = Ok c /\ f_shape c = f_shape a /\ wf_f c.
Proof.
  intros Hs Ha Hb. unfold tensor_add. rewrite Hs, shape_eqb_refl.
  eexists. split; [reflexivity|]. cbn [f_shape]. split; [now symmetry|].
  red. cbn [f_shape f_data]. red in Ha, Hb.
  rewrite length_map, combine_length_eq by congruence. congruence.
Qed.

Lemma combined_mask_same_shape (mask_1 mask_2 : farray) (mask_3 : option farray) :
  f_shape mask_1 = f_shape mask_2 -> wf_f mask_1 -> wf_f mask_2 ->
  (forall m3, mask_3 = Some m3 -> f_shape m3 = f_shape mask_1 /\ wf_f m3) ->
  exists cm, combined_mask_of L mask_1 mask_2 mask_3 = Ok cm
             /\ f_shape cm = f_shape mask_1 /\ wf_f cm.
Proof.
  intros Hs H1 H2 H3.
  destruct (tensor_add_same_shape mask_1 mask_2 Hs H1 H2) as (s & Hadd & Hss & Hsw).
  unfold combined_mask_of. destruct mask_3 as [m3|].
  - destruct (H3 m3 eq_refl) as (Hs3 & Hw3).
    destruct (tensor_add_same_shape s m3 ltac:(congruence) Hsw Hw3) as (c & Hc & Hcs & Hcw).
    exists c. step_result Hadd. split; [exact Hc|]. split; [congruence|exact Hcw].
  - exists s. auto.
Qed.

(** X13. With a colormap and a resize that work as matplotlib's and cv2's,
    lines 215-231 of [combine_masks] succeed on a 1 x H x W x 3 host image
    with H, W >= 2 and two or three non-empty two-dimensional masks of one
    shape: the combined mask has the shape of the masks and both overlays are
    H x W x 3 images.  So on such inputs the method ends in the [TypeError]
    of [numpy_to_tensor(overlay_heatmap)] and leaves the world as it was. *)
Theorem combine_masks_overlays_returns (input_image mask_1 mask_2 : farray)
    (mask_3 : option farray) (mh mw H W : nat)
    (Himage : f_shape input_image = [1; H; W; 3]%nat) (Hiwf : wf_f input_image)
    (HH : (2 <= H)%nat) (HW : (2 <= W)%nat)
    (H1 : f_shape mask_1 = [mh; mw]) (H1wf : wf_f mask_1)
    (H2 : f_shape mask_2 = [mh; mw]) (H2wf : wf_f mask_2)
    (H3 : forall m3, mask_3 = Some m3 -> f_shape m3 = [mh; mw] /\ wf_f m3)
    (Hmh : (0 < mh)%nat) (Hmw : (0 < mw)%nat) :
  exists combined_mask overlay_heatmap overlay_binary,
    combine_masks_overlays L input_image mask_1 mask_2 mask_3
      = Ok (combined_mask, Some overlay_heatmap, Some overlay_binary)
    /\ f_shape combined_mask = [mh; mw]
    /\ u_shape overlay_heatmap = [H; W; 3%nat] /\ wf_u8 overlay_heatmap
    /\ u_shape overlay_binary = [H; W; 3%nat] /\ wf_u8 overlay_binary
    /\ forall w : world CombineMasks,
         combine_masks L input_image mask_1 mask_2 mask_3 w
         = (Err (missing "numpy_to_tensor" "dtype"), w).
Proof.
  destruct (combined_mask_same_shape mask_1 mask_2 mask_3) as (cm & Hcm & Hcms & Hcmw);
    [congruence|assumption|assumption| |].
  { intros m3 Hm3. destruct (H3 m3 Hm3). split; [congruence|assumption]. }
  rewrite H1 in Hcms.
  set (image_np := {| u_shape := [H; W; 3%nat];
                      u_data := map (fun v => astype_uint8 L (fscale v 255))
                                    (f_data input_image) |}).
  assert (Hnp : tensor_to_numpy L input_image = Ok image_np).
  { unfold tensor_to_numpy, numpy, image_np. cbn [ret Monad_result f_shape f_data].
    rewrite Himage. cbn [squeeze_shape filter Nat.eqb negb].
    destruct H as [|[|H']]; [lia|lia|]. destruct W as [|[|W']]; [lia|lia|]. reflexivity. }
  assert (Hnpw : wf_u8 image_np).
  { red. unfold image_np. cbn [u_shape u_data]. rewrite length_map.
    red in Hiwf. rewrite Hiwf, Himage. unfold numel. cbn [fold_right]. lia. }
  destruct (resized_colormap L Hlib cm viridis mh mw H W Hcms Hcmw Hmh Hmw)
    as (heatmap & hr & Hh & Hhr & Hhrs & Hhrw); [lia|lia|].
  destruct (resized_colormap L Hlib cm Greys_r mh mw H W Hcms Hcmw Hmh Hmw)
    as (binary_mask & br & Hb & Hbr & Hbrs & Hbrw); [lia|lia|].
  assert (Hnpne : numel (u_shape image_np) <> 0%nat) by (apply numel_image; lia).
  destruct (overlay_image_returns L image_np hr (1 # 2) Hnpw Hhrw) as (oh & Hoh & Hohs & Hohw);
    [now rewrite Hhrs|exact Hnpne|reflexivity|].
  destruct (overlay_image_returns L image_np br 1 Hnpw Hbrw) as (ob & Hob & Hobs & Hobw);
    [now rewrite Hbrs|exact Hnpne|reflexivity|].
  assert (Hrun : combine_masks_overlays L input_image mask_1 mask_2 mask_3
                 = Ok (cm, Some oh, Some ob)).
  { unfold combine_masks_overlays.
    step_result Hcm. step_result Hnp. step_result Hh. step_result Hb.
    cbn [image_np u_shape tuple_get nth_error result_bind].
    step_result Hhr. step_result Hbr. step_result Hoh. step_result Hob. reflexivity. }
  exists cm, oh, ob. split; [exact Hrun|]. split; [exact Hcms|].
  split; [exact Hohs|]. split; [exact Hohw|]. split; [exact Hobs|]. split; [exact Hobw|].
  intro w. rewrite combine_masks_run, Hrun. reflexivity.
Qed.

End CombineOrdinary.

(** ** Dilation with an integer factor *)

Lemma forallb_repeat_ones (n : nat) :
  forallb (fun b => negb (Byte.eqb b x00)) (repeat x01 n) = true.
Proof.
  induction n as [|n IH]; [reflexivity|]. cbn [repeat forallb]. rewrite IH.
  reflexivity.
Qed.

Lemma nth_error_map_seq {A} (f : nat -> A) (n p : nat) :
  (p < n)%nat -> nth_error (map f (seq 0 n)) p = Some (f p).
Proof.
  intro Hp. rewrite nth_error_map, nth_error_seq.
  destruct (Nat.ltb_spec p n); [reflexivity|lia].
Qed.

Lemma fold_cvmax_finite (qs : list Q) : forall q0 : Q,
  exists m, fold_left cvmax (map Fin qs) (Fin q0) = Fin m
            /\ In m (q0 :: qs)
            /\ forall x, In x (q0 :: qs) -> (x <= m)%Q.
Proof.
  induction qs as [|a qs IH]; intro q0.
  - exists q0. repeat split; [now left|].
    intros x [<-|[]]. apply Qle_refl.
  - cbn [map fold_left]. unfold cvmax at 2. cbn [fltb].
    destruct (Qltb q0 a) eqn:E.
    + apply Qltb_true in E.
      destruct (IH a) as (m & Hm & Hin & Hle). exists m.
      split; [exact Hm|]. split; [right; exact Hin|].
      intros x [<-|Hx]; [|now apply Hle].
      apply Qle_trans with a; [now apply Qlt_le_weak|apply Hle; now left].
    + apply Qltb_false in E.
      destruct (IH q0) as (m & Hm & Hin & Hle). exists m.
      split; [exact Hm|]. split.
      * destruct Hin as [<-|Hin]; [now left|right; now right].
      * intros x [<-|[<-|Hx]].
        -- apply Hle; now left.
        -- apply Qle_trans with q0; [exact E|apply Hle; now left].
        -- apply Hle; now right.
Qed.

Lemma finite_list (P : Q -> Prop) (l : list fval) :
  (forall v, In v l -> exists z, v = Fin z /\ P z) ->
  exists zs, l = map Fin zs /\ forall z, In z zs -> P z.
Proof.
  induction l as [|v l IH]; intro H.
  - exists []. split; [reflexivity|intros z []].
  - destruct (H v (or_introl eq_refl)) as (z & -> & Hz).
    destruct IH as (zs & -> & Hzs); [intros u Hu; apply H; now right|].
    exists (z :: zs). split; [reflexivity|].
    intros z' [<-|Hz']; [exact Hz|now apply Hzs].
Qed.

Section DilationFacts.

Context (L : Library).

(** A pixel of the dilated image is a value of the source, and not smaller
    than the source pixel at the same place. *)
Lemma dilate_pixel_finite (h w : nat) (qs : list Q) (k p : nat) :
  List.length qs = (h * w)%nat -> (0 < k)%nat -> (p < h * w)%nat ->
  exists o, dilate_pixel h w (map Fin qs) k k p = Fin o
            /\ In o qs /\ (nth p qs 0 <= o)%Q.
Proof.
  intros Hlen Hk Hp.
  assert (Hw : (0 < w)%nat) by nia.
  set (i := Z.of_nat p / Z.of_nat w). set (j := Z.of_nat p mod Z.of_nat w).
  assert (Hi : 0 <= i < Z.of_nat h).
  { unfold i. split; [apply Z.div_pos; lia|].
    apply Z.div_lt_upper_bound; [lia|]. nia. }
  assert (Hj : 0 <= j < Z.of_nat w) by (unfold j; apply Z.mod_pos_bound; lia).
  assert (Hp' : Z.to_nat (i * Z.of_nat w + j) = p).
  { unfold i, j. rewrite Z.mul_comm, <- Z.div_mod by lia. apply Nat2Z.id. }
  assert (Hall : forall v, In v (neighbourhood h w (map Fin qs) k k i j) ->
                   exists z, v = Fin z /\ In z qs).
  { intros v Hv. unfold neighbourhood in Hv.
    apply in_flat_map in Hv. destruct Hv as (a & _ & Hv).
    apply in_flat_map in Hv. destruct Hv as (b & _ & Hv). cbv zeta in Hv.
    match type of Hv with In _ (if ?c then _ else _) => destruct c eqn:E end;
      [|destruct Hv].
    destruct Hv as [<-|[]].
    rewrite !andb_true_iff, !Z.leb_le, !Z.ltb_lt in E.
    set (y := i + a - Z.of_nat k / 2) in *. set (x := j + b - Z.of_nat k / 2) in *.
    assert (Hidx : (Z.to_nat (y * Z.of_nat w + x) < List.length qs)%nat) by nia.
    exists (nth (Z.to_nat (y * Z.of_nat w + x)) qs 0%Q). split.
    - rewrite (nth_indep _ NaN (Fin 0)) by now rewrite length_map.
      apply (map_nth Fin).
    - now apply nth_In. }
  assert (Hcentre : In (Fin (nth p qs 0%Q)) (neighbourhood h w (map Fin qs) k k i j)).
  { unfold neighbourhood.
    assert (Hmid : In (Z.of_nat k / 2) (zrange k)).
    { unfold zrange. apply in_map_iff. exists (Z.to_nat (Z.of_nat k / 2)).
      assert (0 <= Z.of_nat k / 2 < Z.of_nat k).
      { split; [apply Z.div_pos; lia|]. apply Z.div_lt; lia. }
      split; [lia|]. apply in_seq. lia. }
    apply in_flat_map. exists (Z.of_nat k / 2). split; [exact Hmid|].
    apply in_flat_map. exists (Z.of_nat k / 2). split; [exact Hmid|].
    cbv zeta.
    replace (i + Z.of_nat k / 2 - Z.of_nat k / 2) with i by lia.
    replace (j + Z.of_nat k / 2 - Z.of_nat k / 2) with j by lia.
    replace ((0 <=? i) && (i <? Z.of_nat h) && (0 <=? j) && (j <? Z.of_nat w)) with true.
    2:{ symmetry. rewrite !andb_true_iff, !Z.leb_le, !Z.ltb_lt. lia. }
    left. rewrite Hp'.
    rewrite (nth_indep _ NaN (Fin 0)) by (rewrite length_map; lia).
    apply (map_nth Fin). }
  unfold dilate_pixel. fold i j.
  destruct (finite_list (fun z => In z qs) _ Hall) as (zs & Hzs & Hin).
  rewrite Hzs in *. destruct zs as [|z0 zs]; [destruct Hcentre|].
  cbn [map]. destruct (fold_cvmax_finite zs z0) as (m & Hm & Hmin & Hmax).
  exists m. split; [exact Hm|]. split; [now apply Hin|].
  apply Hmax. apply in_map_iff in Hcentre. destruct Hcentre as (c & Hc & Hcin).
  injection Hc as Hc'. rewrite <- Hc'. exact Hcin.
Qed.

(** X14. For an integer [dilation_factor >= 0] and a non-empty
    two-dimensional float32 mask of finite values, [dilate_mask] returns the
    conversion to the requested dtype of a float32 mask of the same shape.
    Every value of that mask, before the conversion, is a value of the input
    and is not smaller than the input at the same position: dilation only
    grows the mask, and a mask with values in [0, 1] stays in [0, 1].  When
    float32 is requested, that mask is what is returned. *)
Theorem dilate_mask_extensive (mask : farray) (qs : list Q) (d : Z)
    (dtype0 : torch_dtype) (h w : nat)
    (Hdtype : f_dtype mask = float32) (Hshape : f_shape mask = [h; w])
    (Hfinite : f_data mask = map Fin qs) (Hwf : wf_f mask) (Hd : 0 <= d)
    (Hh : (0 < h)%nat) (Hw : (0 < w)%nat) :
  exists dilated,
    dilate_mask L mask (inject_Z d) dtype0 = Ok (type_as dilated dtype0)
    /\ f_dtype dilated = float32
    /\ f_shape dilated = [h; w]
    /\ List.length (f_data dilated) = List.length qs
    /\ (forall p q, nth_error qs p = Some q ->
          exists o, nth_error (f_data dilated) p = Some (Fin o) /\ (q <= o)%Q /\ In o qs)
    /\ ((forall q, In q qs -> (0 <= q <= 1)%Q) ->
          forall v, In v (f_data dilated) -> in_unit v)
    /\ (dtype0 = float32 -> dilate_mask L mask (inject_Z d) dtype0 = Ok dilated).
Proof.
  assert (Hlen : List.length qs = (h * w)%nat).
  { red in Hwf. rewrite Hfinite, length_map, Hshape in Hwf.
    unfold numel in Hwf. cbn [fold_right] in Hwf. lia. }
  set (k := S (Z.to_nat (2 * d))).
  assert (Hones : np_ones_square (kernel_size (inject_Z d))
                  = Ok {| u_shape := [k; k]; u_data := repeat x01 (k * k) |}).
  { rewrite kernel_size_integer. unfold np_ones_square.
    destruct (Z.ltb_spec (2 * d + 1) 0); [lia|].
    replace (Z.to_nat (2 * d + 1)) with k by (unfold k; lia). reflexivity. }
  assert (Hgrown : forall out : list fval,
            List.length out = List.length qs ->
            (forall p q, nth_error qs p = Some q ->
               exists o, nth_error out p = Some (Fin o) /\ (q <= o)%Q /\ In o qs) ->
            (forall q, In q qs -> (0 <= q <= 1)%Q) ->
            forall v, In v out -> in_unit v).
  { intros out Hl Hpix Hunit v Hv. apply In_nth_error in Hv. destruct Hv as (p & Hv).
    assert (Hp : (p < List.length qs)%nat).
    { rewrite <- Hl. apply nth_error_Some. congruence. }
    destruct (nth_error qs p) as [q|] eqn:Hq; [|apply nth_error_None in Hq; lia].
    destruct (Hpix p q Hq) as (o & Ho & _ & Hin).
    rewrite Ho in Hv. inversion Hv. exists o. split; [reflexivity|now apply Hunit]. }
  assert (Hreturn : forall dilated : farray,
            f_dtype dilated = float32 ->
            cv2_dilate L mask {| u_shape := [k; k]; u_data := repeat x01 (k * k) |}
            = Ok (Some dilated) ->
            dilate_mask L mask (inject_Z d) dtype0 = Ok (type_as dilated dtype0)
            /\ (dtype0 = float32 -> dilate_mask L mask (inject_Z d) dtype0 = Ok dilated)).
  { intros dilated Hdt Hrun.
    assert (Hmask : dilate_mask L mask (inject_Z d) dtype0 = Ok (type_as dilated dtype0)).
    { unfold dilate_mask. step_result Hones. unfold numpy. now rewrite Hrun. }
    split; [exact Hmask|]. intros ->. rewrite Hmask. f_equal.
    destruct dilated as [dt sh data]. cbn [f_dtype] in Hdt. now subst dt. }
  destruct (Z.eq_dec d 0) as [Hzero|Hpos].
  - (* a 1 x 1 kernel: the mask is copied *)
    assert (Hk : k = 1%nat) by (unfold k; lia).
    exists {| f_dtype := float32; f_shape := [h; w]; f_data := f_data mask |}.
    destruct (Hreturn {| f_dtype := float32; f_shape := [h; w]; f_data := f_data mask |}
                eq_refl) as (Hrun & Hrun32).
    { rewrite Hk. cbn [repeat Nat.mul Nat.add].
      rewrite (cv2_dilate_1x1 L mask) by (rewrite Hshape; unfold numel; cbn [fold_right]; nia).
      now rewrite Hdtype, Hshape. }
    split; [exact Hrun|]. cbn [f_dtype f_shape f_data].
    split; [reflexivity|]. split; [reflexivity|].
    split; [now rewrite Hfinite, length_map|].
    assert (Hpix : forall p q, nth_error qs p = Some q ->
              exists o, nth_error (f_data mask) p = Some (Fin o) /\ (q <= o)%Q /\ In o qs).
    { intros p q Hq. exists q. rewrite Hfinite, nth_error_map, Hq.
      split; [reflexivity|]. split; [apply Qle_refl|]. eapply nth_error_In, Hq. }
    split; [exact Hpix|]. split; [|exact Hrun32].
    apply Hgrown; [now rewrite Hfinite, length_map|exact Hpix].
  - (* a larger kernel: the maximum over the neighbourhood *)
    destruct h as [|h']; [lia|]. destruct w as [|w']; [lia|].
    set (data := map (dilate_pixel (S h') (S w') (f_data mask) k k) (seq 0 (S h' * S w'))).
    exists {| f_dtype := float32; f_shape := [S h'; S w']; f_data := data |}.
    destruct (Hreturn {| f_dtype := float32; f_shape := [S h'; S w']; f_data := data |}
                eq_refl) as (Hrun & Hrun32).
    { unfold cv2_dilate. cbn [u_shape u_data].
      assert (Hnot1 : shape_eqb [k; k] [1; 1]%nat = false).
      { unfold shape_eqb. destruct (list_eq_dec Nat.eq_dec [k; k] [1; 1]%nat) as [E|E];
          [|reflexivity].
        assert (Hk1 : hd 0%nat [k; k] = 1%nat) by now rewrite E.
        cbn [hd] in Hk1. unfold k in Hk1. lia. }
      rewrite Hnot1, Hdtype, Hshape. unfold k at 1 2. fold k.
      now rewrite forallb_repeat_ones. }
    split; [exact Hrun|]. cbn [f_dtype f_shape f_data].
    split; [reflexivity|]. split; [reflexivity|].
    assert (Hdl : List.length data = List.length qs)
      by (unfold data; now rewrite length_map, length_seq).
    split; [exact Hdl|].
    assert (Hpix : forall p q, nth_error qs p = Some q ->
              exists o, nth_error data p = Some (Fin o) /\ (q <= o)%Q /\ In o qs).
    { intros p q Hq.
      assert (Hp : (p < S h' * S w')%nat) by (rewrite <- Hlen; apply nth_error_Some; congruence).
      destruct (dilate_pixel_finite (S h') (S w') qs k p Hlen ltac:(unfold k; lia) Hp)
        as (o & Ho & Hin & Hle).
      exists o. unfold data. rewrite nth_error_map_seq by exact Hp. rewrite Hfinite, Ho.
      split; [reflexivity|]. split; [|exact Hin].
      now rewrite (nth_error_nth _ _ 0%Q Hq) in Hle. }
    split; [exact Hpix|]. split; [|exact Hrun32].
    now apply Hgrown.
Qed.

Lemma kernel_size_negative (d : Q) : (d <= -1)%Q -> kernel_size d < 0.
Proof.
  intro Hd. unfold kernel_size, py_int. destruct d as [n D].
  unfold Qle in Hd. cbn in Hd. cbn [Qmult Qnum Qden].
  rewrite Pos.mul_1_r.
  assert (H : (n * 2) ÷ Z.pos D <= (-2 * Z.pos D) ÷ Z.pos D)
    by (apply Z.quot_le_mono; lia).
  rewrite Z.quot_mul in H by lia. lia.
Qed.

(** X15. For a [dilation_factor] of -1 or less the kernel size is negative
    and [dilate_mask] raises numpy's [ValueError] from [np.ones]; the mask
    is not dilated. *)
Theorem dilate_mask_negative_factor (mask : farray) (dilation_factor : Q)
    (dtype0 : torch_dtype) (Hneg : (dilation_factor <= -1)%Q) :
  kernel_size dilation_factor < 0
  /\ dilate_mask L mask dilation_factor dtype0
     = Err (LibraryError
              (LibExn "numpy" "ValueError: negative dimensions are not allowed")).
Proof.
  pose proof (kernel_size_negative dilation_factor Hneg) as Hk.
  split; [exact Hk|].
  unfold dilate_mask, np_ones_square.
  destruct (Z.ltb_spec (kernel_size dilation_factor) 0); [reflexivity|lia].
Qed.

End DilationFacts.

(** ** The prediction [do_clipseg] returns *)

Lemma firstn_slice_length {A} (data : list A) (b n : nat) :
  List.length data = (S b * n)%nat -> List.length (firstn n data) = n.
Proof. intro H. rewrite length_firstn. nia. Qed.

Section Prediction.

Context (L : Library).

(** X16. When the processor, the model and the forward pass succeed,
    [do_clipseg] returns [preds[0]] and nothing else of the logits: for
    logits with a leading axis of length at least one, the first slice, a
    well-formed tensor of the remaining shape; for logits without an axis it
    raises torch's [IndexError].  The node object is kept and the three
    events of the loads are logged. *)
Theorem do_clipseg_first_prediction (prompt : string) (images : list (pil_image L))
    (w : world (CLIPSeg L)) (pr : processor L) (loaded model : segmodel L)
    (inputs : model_inputs L) (preds : farray)
    (Hprocessor : CLIPSegProcessor_from_pretrained L pretrained_path = inr pr)
    (Hloaded : CLIPSegForImageSegmentation_from_pretrained L pretrained_path = inr loaded)
    (Hmodel : model_to L loaded (device L (self w)) = inr model)
    (Hinputs : processor_call L pr prompt images = inr inputs)
    (Hpreds : model_logits L model inputs = inr preds) :
  do_clipseg L prompt images w
    = (getitem0 preds,
       {| self := self w;
          log := (log w ++ [FromPretrained "CLIPSegProcessor" pretrained_path;
                            FromPretrained "CLIPSegForImageSegmentation" pretrained_path;
                            ToDevice])%list |})
  /\ (forall b rest, f_shape preds = S b :: rest -> wf_f preds ->
        exists flat, getitem0 preds = Ok flat
                     /\ f_shape flat = rest
                     /\ f_dtype flat = f_dtype preds
                     /\ f_data flat = firstn (numel rest) (f_data preds)
                     /\ wf_f flat)
  /\ (f_shape preds = [] ->
        getitem0 preds
        = Err (LibraryError (LibExn "torch" "IndexError: invalid index of a 0-dim tensor"))).
Proof.
  split; [|split].
  - unfold do_clipseg.
    rewrite run_bind. unfold effect at 1. rewrite Hprocessor. cbn [lib log self].
    rewrite run_bind. unfold effect at 1. rewrite Hloaded. cbn [lib log self].
    rewrite run_bind. unfold getattr at 1. cbn [self].
    rewrite run_bind. unfold effect at 1. cbn [log self]. rewrite Hmodel. cbn [lib].
    rewrite run_bind. unfold pure at 1. rewrite Hinputs. cbn [lib].
    rewrite run_bind. unfold pure at 1. rewrite Hpreds. cbn [lib].
    unfold pure. now rewrite <- !app_assoc.
  - intros b rest Hshape Hwf. unfold getitem0. rewrite Hshape.
    eexists. split; [reflexivity|]. cbn [f_shape f_dtype f_data].
    repeat split. red. cbn [f_shape f_data].
    red in Hwf. rewrite Hshape in Hwf. unfold numel in *. cbn [fold_right] in Hwf.
    now apply (firstn_slice_length _ b).
  - intro Hshape. unfold getitem0. now rewrite Hshape.
Qed.

End Prediction.

(** ** [segment_image] when an early call fails *)

Section EarlyFailures.

Context (L : Library).

(** X17. When [to_pil_image] refuses the image, as torchvision does for a
    tensor with four axes, [segment_image] raises that exception and has done
    nothing else: no processor or model was loaded. *)
Theorem segment_image_rejected_image (image : farray) (prompt : string)
    (blur threshold dilation_factor : Q) (w : world (CLIPSeg L)) (le : lib_exn)
    (Hpil : to_pil_image L image "RGB" = inl le) :
  segment_image L image prompt blur threshold dilation_factor w
  = (Err (LibraryError le), w).
Proof.
  unfold segment_image. rewrite run_bind. unfold pure at 1. now rewrite Hpil.
Qed.

(** X18. When the image is accepted but the processor cannot be loaded,
    [segment_image] raises the exception of that load; the load of the
    processor is the only event, the model is not loaded, and the node object
    is kept. *)
Theorem segment_image_missing_weights (image : farray) (prompt : string)
    (blur threshold dilation_factor : Q) (w : world (CLIPSeg L))
    (pil : pil_image L) (le : lib_exn)
    (Hpil : to_pil_image L image "RGB" = inr pil)
    (Hprocessor : CLIPSegProcessor_from_pretrained L pretrained_path = inl le) :
  segment_image L image prompt blur threshold dilation_factor w
  = (Err (LibraryError le),
     {| self := self w;
        log := (log w ++ [FromPretrained "CLIPSegProcessor" pretrained_path])%list |}).
Proof.
  unfold segment_image. rewrite run_bind. unfold pure at 1. rewrite Hpil. cbn [lib].
  rewrite run_bind. unfold do_clipseg. rewrite run_bind. unfold effect at 1.
  now rewrite Hprocessor.
Qed.

End EarlyFailures.

(* ------------------------------------------------------------------ *)
(** * Further instances on concrete inputs                             *)
(* ------------------------------------------------------------------ *)

Lemma flat_map_rgba_length (data : list fval) :
  List.length (flat_map (fun v => [v; v; v; Fin 1]) data) = (List.length data * 4)%nat.
Proof. induction data as [|v data IH]; cbn [flat_map app List.length]; lia. Qed.

Lemma numel_app_channel (shape : list nat) (c : nat) :
  numel (shape ++ [c]) = (numel shape * c)%nat.
Proof.
  unfold numel. induction shape as [|n shape IH]; cbn [app fold_right]; [lia|].
  rewrite IH. lia.
Qed.

(** The stand-in libraries behave as the helper functions expect. *)
Lemma lib0_well_behaved : well_behaved lib0.
Proof.
  constructor.
  - intros cmap a _. eexists. reflexivity.
  - intros cmap a r _ H. cbn in H. injection H as <-. cbn [f_shape f_data].
    split; [reflexivity|]. unfold wf_f. cbn [f_shape f_data]. intro Hwf.
    now rewrite flat_map_rgba_length, numel_app_channel, Hwf.
  - intros img h0 w0 w h _ _ _ _ _ _. eexists. reflexivity.
  - intros img h0 w0 w h r Hs H. cbn in H. injection H as <-. rewrite Hs.
    cbn [last u_shape u_data fst snd]. split; [reflexivity|].
    unfold wf_u8, numel. cbn [u_shape u_data fold_right]. rewrite repeat_length. lia.
Qed.

Lemma normalize_idempotent_witness :
  exists m ns,
    normalize mask_a = Ok m
    /\ f_data m = map Fin ns
    /\ (exists g : Q -> Q, ns = map g [0; 1 # 2; 1; 3 # 4]%Q
                           /\ forall x y, (x <= y)%Q -> (g x <= g y)%Q)
    /\ exists m' ns',
         normalize m = Ok m' /\ f_data m' = map Fin ns'
         /\ f_shape m' = f_shape mask_a /\ Forall2 Qeq ns' ns.
Proof.
  apply (normalize_idempotent mask_a [0; 1 # 2; 1; 3 # 4]%Q eq_refl).
  exists 0%Q, 1%Q. split; [now left|]. split; [right; right; now left|].
  intro H. discriminate H.
Defined.

Lemma combined_mask_symmetric_witness :
  combined_mask_of lib0 mask_a mask_b (Some mask_a)
  = combined_mask_of lib0 mask_b mask_a (Some mask_a).
Proof.
  apply (proj1 (combined_mask_symmetric lib0 mask_a mask_b eq_refl)).
Defined.

Lemma overlay_image_shape_witness :
  numel (u_shape rgb_ramp) <> 0%nat
  /\ overlay_image lib0 rgb_ramp rgb_light 0 = Ok (Some rgb_ramp)
  /\ exists r, overlay_image lib0 row_dark row_light (1 # 4) = Ok (Some r)
               /\ u_shape r = [3; 1]%nat.
Proof.
  assert (Hnonempty : numel (u_shape rgb_ramp) <> 0%nat) by (vm_compute; discriminate).
  split; [exact Hnonempty|]. split.
  - destruct (overlay_image_shape lib0 rgb_ramp rgb_light eq_refl eq_refl eq_refl Hnonempty)
      as (_ & _ & Himage & _).
    apply (proj2 (Himage eq_refl)).
  - destruct (overlay_image_shape lib0 row_dark row_light eq_refl eq_refl eq_refl
                ltac:(vm_compute; discriminate)) as (Hall & _).
    destruct (Hall (1 # 4)) as (r & Hr & Hs & _).
    exists r. split; [exact Hr|exact Hs].
Defined.

Lemma overlay_image_half_witness :
  overlay_image lib0 rgb_ramp rgb_light (1 # 2) = overlay_image lib0 rgb_light rgb_ramp (1 # 2)
  /\ overlay_image lib0 rgb_ramp rgb_ramp (1 # 2) = Ok (Some rgb_ramp).
Proof.
  destruct (overlay_image_half lib0 rgb_ramp rgb_light eq_refl eq_refl eq_refl
              ltac:(vm_compute; discriminate))
    as (Hsym & _ & _ & Hself).
  split; [exact Hsym|exact (Hself eq_refl)].
Defined.

Lemma apply_colormap_rgb_witness :
  exists image,
    apply_colormap lib0 mask_a viridis = Ok image
    /\ u_shape image = [2; 2; 3]%nat /\ wf_u8 image
    /\ List.length (u_data image) = (3 * List.length (f_data mask_a))%nat.
Proof.
  apply (apply_colormap_rgb lib0 lib0_well_behaved mask_a viridis 2 2 eq_refl eq_refl).
Defined.

Lemma apply_colormap_other_ranks_witness :
  apply_colormap lib0 mask_row Greys_r
    = Err (LibraryError (LibExn "numpy" "IndexError: too many indices for array"))
  /\ exists image, apply_colormap lib0 mask_batched Greys_r = Ok image
                   /\ u_shape image = [1; 2; 3; 4]%nat.
Proof.
  split.
  - apply (proj1 (apply_colormap_other_ranks lib0 lib0_well_behaved mask_row Greys_r) 4%nat).
    reflexivity.
  - apply (proj2 (apply_colormap_other_ranks lib0 lib0_well_behaved mask_batched Greys_r)
             1%nat 2%nat 4%nat eq_refl).
Defined.

Lemma get_heatmap_returns_witness :
  exists t,
    get_heatmap lib0 mask_a (ANumpy lib0 rgb_ramp) float16 = Ok t
    /\ f_shape t = [1; 2; 2; 3]%nat
    /\ f_dtype t = float16
    /\ wf_f t
    /\ forall v, In v (f_data t) -> in_unit v.
Proof.
  apply (get_heatmap_returns lib0 lib0_well_behaved mask_a rgb_ramp float16 2 2 2 2);
    first [reflexivity | lia].
Defined.

Lemma get_binary_returns_witness :
  exists t resized,
    get_binary lib0 mask_b (ANumpy lib0 rgb_ramp) float32 = Ok (t, resized)
    /\ get_binary lib0 mask_b (ANumpy lib0 rgb_dark) float32 = Ok (t, resized).
Proof.
  destruct (get_binary_returns lib0 lib0_well_behaved mask_b rgb_ramp float32 2 2 2 2
              eq_refl eq_refl ltac:(lia) ltac:(lia) eq_refl eq_refl ltac:(lia) ltac:(lia))
    as (t & resized & Hrun & _ & _ & _ & _ & _ & Hany).
  exists t, resized. split; [exact Hrun|].
  apply Hany; reflexivity.
Defined.

Lemma combine_masks_overlays_returns_witness :
  exists combined_mask overlay_heatmap overlay_binary,
    combine_masks_overlays lib0 host_image0 mask_a mask_b None
      = Ok (combined_mask, Some overlay_heatmap, Some overlay_binary)
    /\ u_shape overlay_heatmap = [2; 2; 3]%nat
    /\ u_shape overlay_binary = [2; 2; 3]%nat.
Proof.
  destruct (combine_masks_overlays_returns lib0 lib0_well_behaved
              host_image0 mask_a mask_b None 2 2 2 2
              eq_refl eq_refl ltac:(lia) ltac:(lia) eq_refl eq_refl eq_refl eq_refl
              ltac:(intros m3 Hm3; discriminate Hm3) ltac:(lia) ltac:(lia))
    as (cm & oh & ob & Hrun & _ & Hoh & _ & Hob & _).
  exists cm, oh, ob. split; [exact Hrun|]. split; assumption.
Defined.

Lemma dilate_mask_extensive_witness :
  exists dilated,
    dilate_mask lib0 mask_a (inject_Z 1) float16 = Ok (type_as dilated float16)
    /\ f_dtype dilated = float32
    /\ f_shape dilated = [2; 2]%nat
    /\ forall v, In v (f_data dilated) -> in_unit v.
Proof.
  destruct (dilate_mask_extensive lib0 mask_a [0; 1 # 2; 1; 3 # 4]%Q 1 float16 2 2
              eq_refl eq_refl eq_refl eq_refl ltac:(lia) ltac:(lia) ltac:(lia))
    as (dilated & Hrun & Hd & Hs & _ & _ & Hunit & _).
  exists dilated. split; [exact Hrun|]. split; [exact Hd|]. split; [exact Hs|].
  apply Hunit. intros q Hq. cbn [In] in Hq.
  destruct Hq as [<-|[<-|[<-|[<-|[]]]]]; split; discriminate.
Defined.

Lemma dilate_mask_negative_factor_witness :
  dilate_mask lib0 mask_a (-2) float32
  = Err (LibraryError (LibExn "numpy" "ValueError: negative dimensions are not allowed")).
Proof.
  apply (proj2 (dilate_mask_negative_factor lib0 mask_a (-2) float32
                  ltac:(discriminate))).
Defined.

Lemma do_clipseg_first_prediction_witness :
  exists flat,
    fst (do_clipseg lib0 "cat" [rgb_dark] world0) = Ok flat
    /\ f_shape flat = [2; 2]%nat.
Proof.
  destruct (do_clipseg_first_prediction lib0 "cat" [rgb_dark] world0 tt tt tt tt
              {| f_dtype := float32; f_shape := [1; 2; 2]%nat;
                 f_data := [Fin (-3); Fin (1 # 2); Fin 2; Fin (-1)] |}
              eq_refl eq_refl eq_refl eq_refl eq_refl)
    as (Hrun & Hslice & _).
  destruct (Hslice 0%nat [2; 2]%nat eq_refl eq_refl) as (flat & Hflat & Hshape & _).
  exists flat. rewrite Hrun. cbn [fst]. split; assumption.
Defined.

Lemma segment_image_rejected_image_witness :
  segment_image lib_rejecting host_image0 "cat" 7 (2 # 5) 4 world_rejecting
  = (Err (LibraryError
            (LibExn "torchvision"
               "ValueError: pic should be 2/3 dimensional. Got 4 dimensions.")),
     world_rejecting).
Proof.
  apply (segment_image_rejected_image lib_rejecting host_image0 "cat" 7 (2 # 5) 4
           world_rejecting _ eq_refl).
Defined.

Lemma segment_image_missing_weights_witness :
  segment_image lib_no_weights image0 "cat" 7 (2 # 5) 4 world_no_weights
  = (Err (LibraryError
            (LibExn "transformers" "OSError: ./clipseg-rd64-refined is not a local folder")),
     {| self := self world_no_weights;
        log := [FromPretrained "CLIPSegProcessor" "./clipseg-rd64-refined"] |}).
Proof.
  apply (segment_image_missing_weights lib_no_weights image0 "cat" 7 (2 # 5) 4
           world_no_weights _ _ eq_refl eq_refl).
Defined.
